(** * PTP management messages: dispatcher, builder and codec core

    A shallow embedding of [msgCall.cpp] (the C++ dispatcher and builder),
    of the Python [MessageBulder] of [msgCall.i], and of the parts of
    [msg.h] they rest on.  Part I holds the definitions, Parts II and III
    the theorems. *)

From stdpp Require Import gmap strings list.
From Stdlib Require Import ZArith Lia.
From Stdlib Require Import Floats.SpecFloat.

Local Open Scope Z_scope.

(** * Part I: definitions *)

(** ** msg.h: enumerations *)

(** [enum actionField_e : uint8_t]. *)
Inductive actionField_e := GET | SET | RESPONSE | COMMAND | ACKNOWLEDGE.

Definition action_value (a : actionField_e) : Z :=
  match a with
  | GET => 0 | SET => 1 | RESPONSE => 2 | COMMAND => 3 | ACKNOWLEDGE => 4
  end.

(** [actionField == GET]. *)
Definition is_GET (a : actionField_e) : bool :=
  action_value a =? action_value GET.

(** [enum mng_vals_e]: the enumerators are produced by the rows of [ids.h];
    a value is the position of its row. *)
Definition mng_vals_e := Z.

(** ** msgCall.cpp and msgCall.i *)

Module MsgCall.

(** Addresses of the free store. *)
Definition loc := positive.

(** The rows of [ids.h]: [A(n, v, sc, a, sz, f)] expands to
    [_ptpmCase##f(n)].  Which rows end in the [_ptpmCaseUF] that
    [callHadler] defines and which in the [_ptpmCaseUFB] that [buildTlv]
    defines is decided by [ids.h]; [#n] is the name of the row. *)
Class IdsTable := {
  ptpmCaseUF : mng_vals_e -> bool;
  ptpmCaseUFB : mng_vals_e -> bool;
  id_str : mng_vals_e -> string
}.

(** The per-ID structures [n##_t] of [proc.h], each derived from
    [BaseMngTlv]: [Payload] holds their fields, [default_fields n] those of
    a default-constructed [n##_t]. *)
Class ProcTypes (Payload : Type) := {
  default_fields : mng_vals_e -> Payload
}.

(** An object derived from [BaseMngTlv]: its dynamic type is the [n##_t] of
    one management ID. *)
Record BaseMngTlv (Payload : Type) := mkTlv {
  tlv_type : mng_vals_e;
  tlv_fields : Payload
}.
Arguments mkTlv {Payload} _ _.
Arguments tlv_type {Payload} _.
Arguments tlv_fields {Payload} _.

(** [class Message], used through its interface: [getTlvId], [getData],
    [isEmpty] and the two forms of [setAction] (the third argument is the
    pointer handed over, absent in the short form). *)
Class MessageApi (Message Payload : Type) := {
  getTlvId : Message -> mng_vals_e;
  getData : Message -> option (BaseMngTlv Payload);
  isEmpty : mng_vals_e -> bool;
  setAction :
    actionField_e -> mng_vals_e -> option loc -> Message -> bool * Message
}.

(** The dispatcher as it is compiled and derived from: whether the compiler
    defines [__GNUC__], and whether the dynamic class of [*this] overrides
    the virtual [n##_h]. *)
Class DispatcherClass := {
  gnuc : bool;
  overrides_h : mng_vals_e -> bool
}.

(** A build callback is handed the message and the fresh value; it
    populates the value and answers whether it did. *)
Definition build_callback (Message Payload : Type) : Type :=
  Message -> Payload -> bool * Payload.

(** The C++ builder as derived from: [n_b n] is what the virtual [n##_b]
    resolves to for [*this]. *)
Class BuilderClass (Message Payload : Type) := {
  n_b : mng_vals_e -> build_callback Message Payload
}.

(** The Python side: [globals()] (an entry, when called, yields an object
    or [None]), the callable attributes of [self.__class__], and
    [Message.mng2str_c]. *)
Class PyEnv (Message Payload : Type) := {
  py_globals : gmap string (option (BaseMngTlv Payload));
  py_class : gmap string (build_callback Message Payload);
  mng2str_c : mng_vals_e -> string
}.

Section Dispatcher.

Context {Message Payload : Type}.
Context `{IdsTable} `{MessageApi Message Payload} `{DispatcherClass}.

(** [dynamic_cast<const n##_t*>(tlv)]: null unless the dynamic type of
    [*tlv] is [n##_t]. *)
Definition dynamic_cast (n : mng_vals_e) (tlv : BaseMngTlv Payload)
    : option Payload :=
  if tlv_type tlv =? n then Some (tlv_fields tlv) else None.

(** The member functions the dispatcher may invoke.  [call_h n over] is
    [n##_h]: the user's override when [over], the implementation of
    [MessageDispatcher] itself otherwise. *)
Inductive handler_call :=
| call_noTlv (msg : Message)
| call_noTlvCallBack (msg : Message) (idStr : string)
| call_h (n : mng_vals_e) (over : bool) (msg : Message) (tlv : Payload)
         (idStr : string).

(** [check_inherit(n)]: with [__GNUC__] the address of
    [MessageDispatcher::n##_h] is compared with the function the virtual
    call resolves to; without it the macro is empty. *)
Definition check_inherit (n : mng_vals_e) : bool :=
  gnuc && negb (overrides_h n).

(** [callHadler(msg, tlv_id, tlv)].  The result is the sequence of member
    functions invoked; [None] stands for the dereference of a null
    [dynamic_cast]. *)
Definition callHadler3 (msg : Message) (tlv_id : mng_vals_e)
    (tlv : option (BaseMngTlv Payload)) : option (list handler_call) :=
  match tlv with
  | None => Some [call_noTlv msg]
  | Some t =>
      if ptpmCaseUF tlv_id then
        if check_inherit tlv_id then
          Some [call_noTlvCallBack msg (id_str tlv_id)]
        else
          match dynamic_cast tlv_id t with
          | Some d =>
              Some [call_h tlv_id (overrides_h tlv_id) msg d (id_str tlv_id)]
          | None => None
          end
      else Some [call_noTlv msg]
  end.

(** [callHadler(msg)]. *)
Definition callHadler (msg : Message) : option (list handler_call) :=
  callHadler3 msg (getTlvId msg) (getData msg).

Definition is_call_h (c : handler_call) : bool :=
  match c with call_h _ _ _ _ _ => true | _ => false end.

Definition is_call_noTlvCallBack (c : handler_call) : bool :=
  match c with call_noTlvCallBack _ _ => true | _ => false end.

End Dispatcher.

Section Builder.

Context {Message Payload : Type}.
Context `{IdsTable} `{ProcTypes Payload} `{MessageApi Message Payload}.

(** What a builder does to the outside: allocations, callbacks, deletions
    and calls of [setAction]. *)
Inductive build_event :=
| ev_new (n : mng_vals_e) (d : loc)
| ev_b (n : mng_vals_e) (d : loc)
| ev_delete (d : loc)
| ev_setAction (a : actionField_e) (n : mng_vals_e) (tlv : option loc).

(** The builder ([m_msg], [m_tlv]) together with the free store and the
    events so far. *)
Record bstate := mkB {
  m_msg : Message;
  m_tlv : option loc;
  store : gmap loc (BaseMngTlv Payload);
  trace : list build_event
}.

Definition emit (e : build_event) (s : bstate) : bstate :=
  mkB (m_msg s) (m_tlv s) (store s) (trace s ++ [e]).

(** [m_msg.setAction(actionField, tlv_id [, tlv])]. *)
Definition call_setAction (a : actionField_e) (n : mng_vals_e)
    (tlv : option loc) (s : bstate) : bool * bstate :=
  let '(r, msg') := setAction a n tlv (m_msg s) in
  (r, emit (ev_setAction a n tlv) (mkB msg' (m_tlv s) (store s) (trace s))).

(** A fresh object at an unused address: [new n##_t], or the call of a
    Python class. *)
Definition alloc (n : mng_vals_e) (v : BaseMngTlv Payload) (s : bstate)
    : loc * bstate :=
  let d := fresh (dom (store s)) in
  (d, emit (ev_new n d) (mkB (m_msg s) (m_tlv s) (<[d := v]> (store s)) (trace s))).

(** [delete d]. *)
Definition free (d : loc) (s : bstate) : bstate :=
  emit (ev_delete d) (mkB (m_msg s) (m_tlv s) (delete d (store s)) (trace s)).

(** The call of a build callback [cb] on the message and the object at [d]. *)
Definition call_b (cb : build_callback Message Payload) (n : mng_vals_e)
    (d : loc) (s : bstate) : bool * bstate :=
  match store s !! d with
  | Some v =>
      let '(ok, f') := cb (m_msg s) (tlv_fields v) in
      (ok, emit (ev_b n d)
             (mkB (m_msg s) (m_tlv s)
                  (<[d := mkTlv (tlv_type v) f']> (store s)) (trace s)))
  | None => (false, s)
  end.

(** [m_tlv.reset(tlv)]: the object held so far is deleted. *)
Definition reset (tlv : loc) (s : bstate) : bstate :=
  let s' := match m_tlv s with
            | Some old => free old s
            | None => s
            end in
  mkB (m_msg s') (Some tlv) (store s') (trace s').

(** [MessageBulder::buildTlv] of msgCall.cpp. *)
Definition buildTlv `{BuilderClass Message Payload}
    (actionField : actionField_e) (tlv_id : mng_vals_e) (s : bstate)
    : bool * bstate :=
  if is_GET actionField || isEmpty tlv_id then
    call_setAction actionField tlv_id None s
  else if ptpmCaseUFB tlv_id then
    let '(d, s1) := alloc tlv_id (mkTlv tlv_id (default_fields tlv_id)) s in
    let '(ok, s2) := call_b (n_b tlv_id) tlv_id d s1 in
    if ok then
      call_setAction actionField tlv_id (Some d) (reset d s2)
    else (false, free d s2)
  else (false, s).

(** [self.m_tlv = tlv]: the name is bound anew.  The builder held the
    only reference to the object bound before; CPython counts references
    and finalizes that object at once.  Binding the object already bound
    finalizes nothing. *)
Definition py_bind (tlv : loc) (s : bstate) : bstate :=
  let s' := match m_tlv s with
            | Some old => if bool_decide (old = tlv) then s else free old s
            | None => s
            end in
  mkB (m_msg s') (Some tlv) (store s') (trace s').

(** [return False] with the local name [tlv] bound: the name is the only
    reference to the object, which is finalized as the call returns. *)
Definition py_drop (tlv : loc) (s : bstate) : bstate := free tlv s.

(** [MessageBulder.buildTlv] of msgCall.i (Python). *)
Definition py_buildTlv `{PyEnv Message Payload}
    (actionField : actionField_e) (tlv_id : mng_vals_e) (s : bstate)
    : bool * bstate :=
  if is_GET actionField || isEmpty tlv_id then
    call_setAction actionField tlv_id None s
  else
    let idstr := mng2str_c tlv_id in
    let tlv_pkg := idstr +:+ "_t" in
    let callback_name := idstr +:+ "_b" in
    match py_globals !! tlv_pkg, py_class !! callback_name with
    | Some ctor, Some cb =>
        match ctor with
        | Some v =>
            let '(tlv, s1) := alloc tlv_id v s in
            let '(ok, s2) := call_b cb tlv_id tlv s1 in
            if ok then
              let '(r, s3) := call_setAction actionField tlv_id (Some tlv) s2 in
              if r then (true, py_bind tlv s3) else (false, py_drop tlv s3)
            else (false, py_drop tlv s2)
        | None => (false, s)
        end
    | _, _ => (false, s)
    end.

(** The calls of [setAction] among the events. *)
Definition setAction_calls (es : list build_event)
    : list (actionField_e * mng_vals_e * option loc) :=
  omap (fun e => match e with
                 | ev_setAction a n tlv => Some (a, n, tlv)
                 | _ => None
                 end) es.

Definition is_ev_new (e : build_event) : bool :=
  match e with ev_new _ _ => true | _ => false end.

(** The Python class defines the callbacks the C++ class overrides: where
    Python finds a class [n_t] and a callable [n_b], [ids.h] has a builder
    case for [n], the class builds what [new n##_t] builds and the
    callback is the one [n##_b] resolves to; where it finds none, [n##_b]
    is the base implementation, which answers [false]. *)
Definition py_lookup `{PyEnv Message Payload} (n : mng_vals_e)
    : option (option (BaseMngTlv Payload) * build_callback Message Payload) :=
  match py_globals !! (mng2str_c n +:+ "_t"),
        py_class !! (mng2str_c n +:+ "_b") with
  | Some ctor, Some cb => Some (ctor, cb)
  | _, _ => None
  end.

Record same_callbacks `{BuilderClass Message Payload} `{PyEnv Message Payload}
    : Prop := {
  found_agrees : forall n ctor cb,
    py_lookup n = Some (ctor, cb) ->
    ptpmCaseUFB n = true /\
    ctor = Some (mkTlv n (default_fields n)) /\
    n_b n = cb;
  missing_is_base : forall n msg f,
    py_lookup n = None ->
    ptpmCaseUFB n = true ->
    (n_b n msg f).1 = false
}.

(** The builder holds a live object or none. *)
Definition owns (s : bstate) : Prop :=
  forall old, m_tlv s = Some old -> is_Some (store s !! old).

End Builder.

(** *** A sample configuration

    An [ids.h] of three rows, a message class that keeps what [setAction]
    is given, and user classes with a callback for [PRIORITY1] only. *)
Module Sample.

Definition PRIORITY1 : mng_vals_e := 0.
Definition FAULT_LOG : mng_vals_e := 1.
Definition NULL_MANAGEMENT : mng_vals_e := 2.

(** [PRIORITY1] can be built and dispatched, [FAULT_LOG] only dispatched,
    [NULL_MANAGEMENT] has no data. *)
Definition ids : IdsTable := {|
  ptpmCaseUF n := (n =? PRIORITY1) || (n =? FAULT_LOG);
  ptpmCaseUFB n := n =? PRIORITY1;
  id_str n :=
    if n =? PRIORITY1 then "PRIORITY1"
    else if n =? FAULT_LOG then "FAULT_LOG"
    else if n =? NULL_MANAGEMENT then "NULL_MANAGEMENT"
    else "unknown"
|}.

Definition proc : ProcTypes (list Z) := {| default_fields n := [] |}.

Record message := mkMsg {
  msg_tlv_id : mng_vals_e;
  msg_action : actionField_e;
  msg_dataSend : option loc;
  msg_dataGet : option (BaseMngTlv (list Z))
}.

Definition allowed (a : actionField_e) (n : mng_vals_e) : bool :=
  match a with
  | GET => (0 <=? n) && (n <=? 2)
  | SET => (n =? PRIORITY1) || (n =? NULL_MANAGEMENT)
  | COMMAND => n =? NULL_MANAGEMENT
  | _ => false
  end.

Definition api : MessageApi message (list Z) := {|
  getTlvId := msg_tlv_id;
  getData := msg_dataGet;
  isEmpty n := n =? NULL_MANAGEMENT;
  setAction a n tlv m :=
    if allowed a n then (true, mkMsg n a tlv (msg_dataGet m)) else (false, m)
|}.

(** Built with a compiler that defines [__GNUC__], and with one that does
    not; the user overrides no handler. *)
Definition gnu_dispatcher : DispatcherClass :=
  {| gnuc := true; overrides_h n := false |}.

Definition other_dispatcher : DispatcherClass :=
  {| gnuc := false; overrides_h n := false |}.

Definition PRIORITY1_b : build_callback message (list Z) :=
  fun msg tlv => (true, [128]).

Definition builder : BuilderClass message (list Z) := {|
  n_b n := if n =? PRIORITY1 then PRIORITY1_b else fun msg tlv => (false, tlv)
|}.

Definition python : PyEnv message (list Z) := {|
  py_globals :=
    {[ "PRIORITY1_t" := Some (mkTlv PRIORITY1 []) ]};
  py_class := {[ "PRIORITY1_b" := PRIORITY1_b ]};
  mng2str_c := @id_str ids
|}.

(** A message that carries no TLV, and one that carries a [PRIORITY1]. *)
Definition msg_empty : message := mkMsg NULL_MANAGEMENT GET None None.

Definition msg_priority1 : message :=
  mkMsg PRIORITY1 GET None (Some (mkTlv PRIORITY1 [128])).

(** A builder that holds nothing yet. *)
Definition start : @bstate message (list Z) := mkB msg_empty None ∅ [].

End Sample.

End MsgCall.

(** ** msg.h: TimeInterval_t and getInterval *)

Module Interval.

(** [double]: IEEE 754 binary64, as the Standard Library specifies it. *)
Definition prec : Z := 53.
Definition emax : Z := 1024.
Definition double := spec_float.

(** The conversion of an integer to [double], to nearest, ties to even. *)
Definition double_of_Z (z : Z) : double := binary_normalize prec emax z 0 false.

Definition double_div (x y : double) : double := SFdiv prec emax x y.

(** The conversion of an integer to [uint64_t]. *)
Definition to_uint64 (z : Z) : Z := z mod 2 ^ 64.

(** [struct TimeInterval_t { uint64_t scaledNanoseconds; }]. *)
Record TimeInterval_t := { scaledNanoseconds : Z }.

(** [(double)v.scaledNanoseconds / 0x10000]. *)
Definition getInterval (v : TimeInterval_t) : double :=
  double_div (double_of_Z (scaledNanoseconds v)) (double_of_Z 0x10000).

(** The conversion as the specification words it, for a signed 64-bit
    count [value] of 2^-16 ns: [value / 65536.0]. *)
Definition interval_of_signed (value : Z) : double :=
  double_div (double_of_Z value) (double_of_Z 65536).

(** The sign of a [double]. *)
Definition is_negative (x : double) : bool :=
  match x with
  | S754_zero s | S754_infinity s | S754_finite s _ _ => s
  | S754_nan => false
  end.

(** [-1.0] and [281474976710655.0] (2^48 - 1). *)
Definition minus_one : double := S754_finite true 4503599627370496 (-52).
Definition two48_minus_one : double := S754_finite false 9007199254740960 (-5).

End Interval.

(** ** msg.h: the codec

    [msg.h] declares the data types, the state of [class message] and the
    signatures of its member functions; the bodies (msg.cpp), the rows of
    [ids.h] and the per-ID structures of [proc.h] are not part of the
    sources.  Every definition below whose comment starts with
    "Modelled from the spec" follows the specification's text; the rest is
    read off [msg.h]. *)

Module Msg.

(** [enum MNG_PARSE_ERROR_e]. *)
Inductive MNG_PARSE_ERROR_e :=
| MNG_PARSE_ERROR_OK
| MNG_PARSE_ERROR_MSG
| MNG_PARSE_ERROR_INVALID_ID
| MNG_PARSE_ERROR_INVALID_TLV
| MNG_PARSE_ERROR_SIZE_MISS
| MNG_PARSE_ERROR_TOO_SMALL
| MNG_PARSE_ERROR_SIZE
| MNG_PARSE_ERROR_VAL
| MNG_PARSE_ERROR_HEADER
| MNG_PARSE_ERROR_ACTION
| MNG_PARSE_ERROR_UNSUPPORT
| MNG_PARSE_ERROR_MEM.

(** [INT48_MIN], [INT48_MAX], [UINT48_MAX]. *)
Definition INT48_MIN : Z := - 0x7fffffffffff - 1.
Definition INT48_MAX : Z := 0x7fffffffffff.
Definition UINT48_MAX : Z := 0xffffffffffff.

(** The enumerations that travel on the wire, with their enumerators. *)
Inductive enum_e :=
| networkProtocol_e | clockAccuracy_e | faultRecord_e
| timeSource_e | portState_e | linuxptpTimeStamp_e.

(** The octets of the underlying type: [uint16_t] or [uint8_t]. *)
Definition enum_octets (e : enum_e) : nat :=
  match e with networkProtocol_e => 2%nat | _ => 1%nat end.

Definition enumerator (e : enum_e) (v : Z) : bool :=
  match e with
  | networkProtocol_e => (1 <=? v) && (v <=? 6)
  | clockAccuracy_e => ((0x17 <=? v) && (v <=? 0x31)) || (v =? 0xef)
  | faultRecord_e => (0 <=? v) && (v <=? 7)
  | timeSource_e =>
      bool_decide (v ∈ [0x10; 0x20; 0x30; 0x39; 0x40; 0x50; 0x60; 0x90; 0xA0])
  | portState_e => (1 <=? v) && (v <=? 9)
  | linuxptpTimeStamp_e => (0 <=? v) && (v <=? 4)
  end.

(** The IEEE 1588 data types of [msg.h]; an integer field holds a [Z]
    within the range of its C type, a [std::string] or an octet array a
    list of octets. *)
Record Timestamp_t := {
  secondsField : Z;
  nanosecondsField : Z
}.
Record ClockIdentity_t := { v : list Z }.
Record PortIdentity_t := {
  clockIdentity : ClockIdentity_t;
  portNumber : Z
}.
Record PortAddress_t := {
  networkProtocol : Z;
  addressLength : Z;
  addressField : list Z
}.
Record ClockQuality_t := {
  clockClass : Z;
  clockAccuracy : Z;
  offsetScaledLogVariance : Z
}.
Record PTPText_t := {
  lengthField : Z;
  textField : list Z
}.
Record FaultRecord_t := {
  faultRecordLength : Z;
  faultTime : Timestamp_t;
  severityCode : Z;
  faultName : PTPText_t;
  faultValue : PTPText_t;
  faultDescription : PTPText_t
}.
Record AcceptableMaster_t := {
  acceptablePortIdentity : PortIdentity_t;
  alternatePriority1 : Z
}.
Record managementId_t := {
  value : Z;
  scope : Z;
  allowed : Z;
  size : Z
}.
Record msgParams := {
  transportSpecific : Z;
  domainNumber : Z;
  boundaryHops : Z;
  isUnicast : bool;
  useLinuxPTPTlvs : bool;
  target : PortIdentity_t;
  self_id : PortIdentity_t
}.

(** *** The cursor

    [m_cur], [m_left], [m_size] and [m_build] of [class message].  When
    parsing, [m_cur] holds the octets from the cursor on; when building,
    [m_out] holds the octets written before it. *)
Record cursor := mkCur {
  m_build : bool;
  m_cur : list Z;
  m_out : list Z;
  m_left : Z;
  m_size : Z
}.

(** [message::move], as the field operations below use it: the counters
    as unbounded integers and the pointer as the octets ahead of it.
    [Cursor.move], further down, has the arithmetic of the machine; the
    two agree while the pointer stays within its array and neither
    counter wraps. *)
Definition move (val : Z) (c : cursor) : cursor :=
  mkCur (m_build c) (drop (Z.to_nat val) (m_cur c)) (m_out c)
        (m_left c - val) (m_size c + val).

(** A field operation ends with an error or with a value and the cursor
    moved on. *)
Definition M (A : Type) : Type := cursor -> MNG_PARSE_ERROR_e + A * cursor.

#[export] Instance M_ret : MRet M := fun A a c => inr (a, c).
#[export] Instance M_bind : MBind M := fun A B k m c =>
  match m c with
  | inl e => inl e
  | inr (a, c') => k a c'
  end.

Definition fail {A : Type} (e : MNG_PARSE_ERROR_e) : M A := fun _ => inl e.

Definition is_build : M bool := fun c => inr (m_build c, c).

(** The octet count consumed so far. *)
Definition consumed : M Z := fun c => inr (m_size c, c).

Definition len (l : list Z) : Z := Z.of_nat (length l).

(** *** Primitive codec *)

(** [n] octets of [x], most significant first (two's complement for a
    negative [x]), and the number a run of octets stands for. *)
Fixpoint be_bytes (n : nat) (x : Z) : list Z :=
  match n with
  | O => []
  | S k => (x / 256 ^ Z.of_nat k) mod 256 :: be_bytes k x
  end.

Definition be_value (l : list Z) : Z := foldl (fun acc b => acc * 256 + b) 0 l.

(** Sign extension from bit [bits - 1]. *)
Definition sign_extend (bits : Z) (u : Z) : Z :=
  if u <? 2 ^ (bits - 1) then u else u - 2 ^ bits.

(** Modelled from the spec: the bodies of the [proc] members are missing.
    Section 4.A: in parse mode a primitive consumes N octets from the
    cursor, failing with TOO_SMALL if [left < N], and advances; in build
    mode it requires N octets of free capacity, appends and advances the
    size counter.  [short] is the error of a parse that runs out of
    octets. *)
Definition octets (short : MNG_PARSE_ERROR_e) (n : nat) (val : list Z)
    : M (list Z) := fun c =>
  if m_build c then
    if m_left c <? Z.of_nat n then inl MNG_PARSE_ERROR_TOO_SMALL
    else
      let w := resize n 0 val in
      inr (w, move (Z.of_nat n)
                (mkCur (m_build c) (m_cur c) (m_out c ++ w) (m_left c) (m_size c)))
  else
    if (m_left c <? Z.of_nat n) || (len (m_cur c) <? Z.of_nat n) then inl short
    else inr (take n (m_cur c), move (Z.of_nat n) c).

(** Modelled from the spec: [proc(uint8_t &)] ... [proc(uint64_t &)],
    unsigned integers big-endian on the wire (section 3). *)
Definition proc_uint (n : nat) (val : Z) : M Z :=
  l ← octets MNG_PARSE_ERROR_TOO_SMALL n (be_bytes n val); mret (be_value l).

(** Modelled from the spec: [proc(int8_t &)] ... [proc(int64_t &)], two's
    complement, sign-extended after decode. *)
Definition proc_int (n : nat) (val : Z) : M Z :=
  u ← proc_uint n (val mod 256 ^ Z.of_nat n);
  mret (sign_extend (8 * Z.of_nat n) u).

(** Modelled from the spec: [proc48(uint64_t &)].  Section 3:
    [secondsField] is a 48-bit unsigned integer, valid range 0 .. 2^48-1;
    section 8: a larger value is rejected on build with VAL. *)
Definition proc48_u (val : Z) : M Z := fun c =>
  if m_left c <? 6 then inl MNG_PARSE_ERROR_TOO_SMALL
  else if m_build c && (UINT48_MAX <? val) then inl MNG_PARSE_ERROR_VAL
  else proc_uint 6 val c.

(** Modelled from the spec: [proc48(int64_t &)].  Section 4.A: read 6
    octets big-endian into the low bits, sign-extend from bit 47, reject
    values outside [INT48_MIN, INT48_MAX] when building. *)
Definition proc48_i (val : Z) : M Z := fun c =>
  if m_left c <? 6 then inl MNG_PARSE_ERROR_TOO_SMALL
  else if m_build c && ((val <? INT48_MIN) || (INT48_MAX <? val))
  then inl MNG_PARSE_ERROR_VAL
  else proc_int 6 val c.

(** Modelled from the spec: [procLe(uint64_t &)], the little-endian
    escape of the linuxptp statistics (section 4.A). *)
Definition procLe (val : Z) : M Z :=
  l ← octets MNG_PARSE_ERROR_TOO_SMALL 8 (reverse (be_bytes 8 val));
  mret (be_value (reverse l)).

(** Modelled from the spec: [proc(uint8_t *val, size_t len)], [len]
    opaque octets. *)
Definition proc_octets (n : nat) (val : list Z) : M (list Z) :=
  octets MNG_PARSE_ERROR_TOO_SMALL n val.

(** Modelled from the spec: [proc(std::string &str, uint16_t len)].
    Section 4.B: on parse, advance exactly [len] octets, fail with
    SIZE_MISS if out of buffer. *)
Definition proc_string (str : list Z) (n : Z) : M (list Z) :=
  octets MNG_PARSE_ERROR_SIZE_MISS (Z.to_nat n) str.

(** Modelled from the spec: [proc(networkProtocol_e &)] and the other
    enumerations.  Section 3: reject unknown values with VAL unless the
    schema says "reserved passthrough". *)
Definition proc_enum (e : enum_e) (passthrough : bool) (val : Z) : M Z :=
  x ← proc_uint (enum_octets e) val;
  if passthrough || enumerator e x then mret x else fail MNG_PARSE_ERROR_VAL.

(** Modelled from the spec: a reserved octet, written as 0 and skipped
    on parse (the member [reserved] of [class message]). *)
Definition proc_reserved : M unit :=
  _ ← proc_uint 1 0; mret tt.

(** *** Compound codec

    Modelled from the spec: the bodies of [proc(Timestamp_t &)] and the
    other composites are missing.  Section 4.B: each composite is a
    direct sequence of primitive calls in field order; the layouts are
    those of section 3. *)

(** Modelled from the spec: TimeInterval, [scaledNanoseconds] in 8 octets
    (the member is a [uint64_t]). *)
Definition proc_TimeInterval (d : Interval.TimeInterval_t)
    : M Interval.TimeInterval_t :=
  x ← proc_uint 8 (Interval.scaledNanoseconds d);
  mret {| Interval.scaledNanoseconds := x |}.

(** Modelled from the spec: Timestamp, seconds(u48) then nanoseconds(u32),
    10 octets. *)
Definition proc_Timestamp (d : Timestamp_t) : M Timestamp_t :=
  s ← proc48_u (secondsField d);
  n ← proc_uint 4 (nanosecondsField d);
  mret {| secondsField := s; nanosecondsField := n |}.

(** Modelled from the spec: ClockIdentity, exactly 8 opaque octets. *)
Definition proc_ClockIdentity (d : ClockIdentity_t) : M ClockIdentity_t :=
  x ← proc_octets 8 (v d); mret {| v := x |}.

(** Modelled from the spec: PortIdentity, ClockIdentity then
    portNumber(u16). *)
Definition proc_PortIdentity (d : PortIdentity_t) : M PortIdentity_t :=
  c ← proc_ClockIdentity (clockIdentity d);
  p ← proc_uint 2 (portNumber d);
  mret {| clockIdentity := c; portNumber := p |}.

(** Modelled from the spec: PortAddress, networkProtocol(u16),
    addressLength(u16), addressField(addressLength octets). *)
Definition proc_PortAddress (d : PortAddress_t) : M PortAddress_t :=
  p ← proc_uint 2 (networkProtocol d);
  n ← proc_uint 2 (addressLength d);
  a ← proc_string (addressField d) n;
  mret {| networkProtocol := p; addressLength := n; addressField := a |}.

(** Modelled from the spec: ClockQuality, clockClass(u8),
    clockAccuracy(u8), offsetScaledLogVariance(u16). *)
Definition proc_ClockQuality (d : ClockQuality_t) : M ClockQuality_t :=
  c ← proc_uint 1 (clockClass d);
  a ← proc_uint 1 (clockAccuracy d);
  o ← proc_uint 2 (offsetScaledLogVariance d);
  mret {| clockClass := c; clockAccuracy := a; offsetScaledLogVariance := o |}.

(** Modelled from the spec: PTPText, lengthField(u8) then
    textField(lengthField octets), no terminator; on build lengthField is
    encoded from [textField.size()]. *)
Definition proc_PTPText (d : PTPText_t) : M PTPText_t :=
  b ← is_build;
  n ← proc_uint 1 (if b : bool then len (textField d) else lengthField d);
  t ← proc_string (textField d) n;
  mret {| lengthField := n; textField := t |}.

(** Modelled from the spec: [PTPText_l] and [FaultRecord_l], the encoded
    lengths (1 + text octets; the length field and everything after it). *)
Definition PTPText_l (d : PTPText_t) : Z := 1 + len (textField d).

Definition FaultRecord_l (d : FaultRecord_t) : Z :=
  2 + 10 + 1 + PTPText_l (faultName d) + PTPText_l (faultValue d)
  + PTPText_l (faultDescription d).

(** Modelled from the spec: FaultRecord, faultRecordLength(u16),
    faultTime, severityCode(u8), three PTPText.  The record recomputes
    its length on build; on parse the declared length must match the
    octets consumed by the fields after it. *)
Definition FaultRecord_fields (l : Z) (d : FaultRecord_t) : M FaultRecord_t :=
  t ← proc_Timestamp (faultTime d);
  s ← proc_uint 1 (severityCode d);
  n ← proc_PTPText (faultName d);
  x ← proc_PTPText (faultValue d);
  y ← proc_PTPText (faultDescription d);
  mret {| faultRecordLength := l; faultTime := t; severityCode := s;
          faultName := n; faultValue := x; faultDescription := y |}.

Definition proc_FaultRecord (d : FaultRecord_t) : M FaultRecord_t :=
  b ← is_build;
  l ← proc_uint 2 (if b : bool then FaultRecord_l d - 2 else faultRecordLength d);
  from ← consumed;
  r ← FaultRecord_fields l d;
  to ← consumed;
  if to - from =? l then mret r else fail MNG_PARSE_ERROR_SIZE_MISS.

(** Modelled from the spec: AcceptableMaster, PortIdentity(10) then
    alternatePriority1(u8). *)
Definition proc_AcceptableMaster (d : AcceptableMaster_t) : M AcceptableMaster_t :=
  p ← proc_PortIdentity (acceptablePortIdentity d);
  a ← proc_uint 1 (alternatePriority1 d);
  mret {| acceptablePortIdentity := p; alternatePriority1 := a |}.

(** *** Per-ID field processors

    Modelled from the spec: the per-ID routines [n##_f] and the
    structures [n##_t] they work on are missing.  Section 4.D: the body
    of a routine is a direction-agnostic sequence of field operations
    over the primitive and compound codec; for a variable-size payload
    it reads a count prefix and iterates, and on build emits the prefix
    from the container size.  A routine is given here by the list of
    its field operations. *)
Inductive field :=
| F_u8 | F_u16 | F_u32 | F_u48 | F_u64
| F_i8 | F_i16 | F_i32 | F_i48 | F_i64
| F_u64le
| F_octets (n : nat)
| F_reserved
| F_enum (e : enum_e) (passthrough : bool)
| F_TimeInterval | F_Timestamp | F_ClockIdentity | F_PortIdentity
| F_PortAddress | F_ClockQuality | F_PTPText | F_FaultRecord
| F_AcceptableMaster
| F_array (prefix : nat) (t : field).

(** The C++ type of the member a field operation works on. *)
Fixpoint tval (t : field) : Type :=
  match t with
  | F_octets _ => list Z
  | F_reserved => unit
  | F_TimeInterval => Interval.TimeInterval_t
  | F_Timestamp => Timestamp_t
  | F_ClockIdentity => ClockIdentity_t
  | F_PortIdentity => PortIdentity_t
  | F_PortAddress => PortAddress_t
  | F_ClockQuality => ClockQuality_t
  | F_PTPText => PTPText_t
  | F_FaultRecord => FaultRecord_t
  | F_AcceptableMaster => AcceptableMaster_t
  | F_array _ t' => list (tval t')
  | _ => Z
  end.

(** A default-constructed member. *)
Definition no_text : PTPText_t := {| lengthField := 0; textField := [] |}.
Definition no_time : Timestamp_t := {| secondsField := 0; nanosecondsField := 0 |}.
Definition no_port : PortIdentity_t :=
  {| clockIdentity := {| v := replicate 8 0 |}; portNumber := 0 |}.

Definition dflt (t : field) : tval t :=
  match t return tval t with
  | F_octets n => replicate n 0
  | F_reserved => tt
  | F_TimeInterval => {| Interval.scaledNanoseconds := 0 |}
  | F_Timestamp => no_time
  | F_ClockIdentity => {| v := replicate 8 0 |}
  | F_PortIdentity => no_port
  | F_PortAddress =>
      {| networkProtocol := 0; addressLength := 0; addressField := [] |}
  | F_ClockQuality =>
      {| clockClass := 0; clockAccuracy := 0; offsetScaledLogVariance := 0 |}
  | F_PTPText => no_text
  | F_FaultRecord =>
      {| faultRecordLength := 0; faultTime := no_time; severityCode := 0;
         faultName := no_text; faultValue := no_text;
         faultDescription := no_text |}
  | F_AcceptableMaster =>
      {| acceptablePortIdentity := no_port; alternatePriority1 := 0 |}
  | F_array _ _ => []
  | F_u8 | F_u16 | F_u32 | F_u48 | F_u64 | F_i8 | F_i16 | F_i32 | F_i48
  | F_i64 | F_u64le | F_enum _ _ => 0
  end.

(** One operation per element, in order. *)
Definition for_each {A : Type} (p : A -> M A) : list A -> M (list A) :=
  fix go (l : list A) : M (list A) :=
    match l with
    | [] => mret []
    | x :: l' => y ← p x; r ← go l'; mret (y :: r)
    end.

Fixpoint proc_field (t : field) : tval t -> M (tval t) :=
  match t return tval t -> M (tval t) with
  | F_u8 => proc_uint 1
  | F_u16 => proc_uint 2
  | F_u32 => proc_uint 4
  | F_u48 => proc48_u
  | F_u64 => proc_uint 8
  | F_i8 => proc_int 1
  | F_i16 => proc_int 2
  | F_i32 => proc_int 4
  | F_i48 => proc48_i
  | F_i64 => proc_int 8
  | F_u64le => procLe
  | F_octets n => proc_octets n
  | F_reserved => fun _ => proc_reserved
  | F_enum e passthrough => proc_enum e passthrough
  | F_TimeInterval => proc_TimeInterval
  | F_Timestamp => proc_Timestamp
  | F_ClockIdentity => proc_ClockIdentity
  | F_PortIdentity => proc_PortIdentity
  | F_PortAddress => proc_PortAddress
  | F_ClockQuality => proc_ClockQuality
  | F_PTPText => proc_PTPText
  | F_FaultRecord => proc_FaultRecord
  | F_AcceptableMaster => proc_AcceptableMaster
  | F_array prefix t' => fun l : list (tval t') =>
      b ← is_build;
      n ← proc_uint prefix (if b : bool then Z.of_nat (length l) else 0);
      for_each (proc_field t')
        (if b : bool then l else replicate (Z.to_nat n) (dflt t'))
  end.

(** The structure [n##_t] of a routine: one member per field operation. *)
Fixpoint hval (s : list field) : Type :=
  match s with
  | [] => unit
  | t :: s' => (tval t * hval s')%type
  end.

Fixpoint dflts (s : list field) : hval s :=
  match s return hval s with
  | [] => tt
  | t :: s' => (dflt t, dflts s')
  end.

(** The routine [n##_f] of a list of field operations. *)
Fixpoint proc_fields (s : list field) : hval s -> M (hval s) :=
  match s return hval s -> M (hval s) with
  | [] => fun _ => mret tt
  | t :: s' => fun d =>
      x ← proc_field t d.1; r ← proc_fields s' d.2; mret (x, r)
  end.

(** *** Members within the range of their C++ types *)

Definition uint (bits : Z) (x : Z) : Prop := 0 <= x < 2 ^ bits.
Definition sint (bits : Z) (x : Z) : Prop := - 2 ^ (bits - 1) <= x < 2 ^ (bits - 1).
Definition octet_list (l : list Z) : Prop := Forall (uint 8) l.

Definition legal_Timestamp (d : Timestamp_t) : Prop :=
  uint 64 (secondsField d) /\ uint 32 (nanosecondsField d).

Definition legal_ClockIdentity (d : ClockIdentity_t) : Prop :=
  length (v d) = 8%nat /\ octet_list (v d).

Definition legal_PortIdentity (d : PortIdentity_t) : Prop :=
  legal_ClockIdentity (clockIdentity d) /\ uint 16 (portNumber d).

(** [addressLength] and [lengthField] are the sizes of the strings they
    describe, [faultRecordLength] the octets after it. *)
Definition legal_PortAddress (d : PortAddress_t) : Prop :=
  uint 16 (networkProtocol d) /\ uint 16 (addressLength d) /\
  addressLength d = len (addressField d) /\ octet_list (addressField d).

Definition legal_ClockQuality (d : ClockQuality_t) : Prop :=
  uint 8 (clockClass d) /\ uint 8 (clockAccuracy d) /\
  uint 16 (offsetScaledLogVariance d).

Definition legal_PTPText (d : PTPText_t) : Prop :=
  uint 8 (lengthField d) /\ lengthField d = len (textField d) /\
  octet_list (textField d).

Definition legal_FaultRecord (d : FaultRecord_t) : Prop :=
  uint 16 (faultRecordLength d) /\
  faultRecordLength d = FaultRecord_l d - 2 /\
  legal_Timestamp (faultTime d) /\ uint 8 (severityCode d) /\
  legal_PTPText (faultName d) /\ legal_PTPText (faultValue d) /\
  legal_PTPText (faultDescription d).

Definition legal_AcceptableMaster (d : AcceptableMaster_t) : Prop :=
  legal_PortIdentity (acceptablePortIdentity d) /\ uint 8 (alternatePriority1 d).

Fixpoint legal (t : field) : tval t -> Prop :=
  match t return tval t -> Prop with
  | F_u8 => uint 8
  | F_u16 => uint 16
  | F_u32 => uint 32
  | F_u48 | F_u64 | F_u64le => uint 64
  | F_i8 => sint 8
  | F_i16 => sint 16
  | F_i32 => sint 32
  | F_i48 | F_i64 => sint 64
  | F_octets n => fun l => length l = n /\ octet_list l
  | F_reserved => fun _ => True
  | F_enum e _ => uint (8 * Z.of_nat (enum_octets e))
  | F_TimeInterval => fun d => uint 64 (Interval.scaledNanoseconds d)
  | F_Timestamp => legal_Timestamp
  | F_ClockIdentity => legal_ClockIdentity
  | F_PortIdentity => legal_PortIdentity
  | F_PortAddress => legal_PortAddress
  | F_ClockQuality => legal_ClockQuality
  | F_PTPText => legal_PTPText
  | F_FaultRecord => legal_FaultRecord
  | F_AcceptableMaster => legal_AcceptableMaster
  | F_array prefix t' => fun l : list (tval t') =>
      uint (8 * Z.of_nat prefix) (Z.of_nat (length l)) /\ Forall (legal t') l
  end.

Fixpoint legals (s : list field) : hval s -> Prop :=
  match s return hval s -> Prop with
  | [] => fun _ => True
  | t :: s' => fun d => legal t d.1 /\ legals s' d.2
  end.

(** *** Building, then parsing what was built *)

(** The cursor after [w] was written, and a parse cursor. *)
Definition wrote (w : list Z) (c : cursor) : cursor :=
  mkCur true (drop (length w) (m_cur c)) (m_out c ++ w)
        (m_left c - len w) (m_size c + len w).

Definition reading (w : list Z) (out : list Z) (left size : Z) : cursor :=
  mkCur false w out left size.

(** [build] and [parse] round-trip the values that satisfy [ok]: a build
    that succeeds hands the value back and writes octets [w] from which,
    whatever follows them, the parse recovers the value, consuming
    exactly [w]. *)
Definition roundtrip2 {A : Type} (build parse : A -> M A) (ok : A -> Prop)
    : Prop :=
  forall (x : A) (c : cursor) (x' : A) (c' : cursor),
    ok x -> m_build c = true -> build x c = inr (x', c') ->
    x' = x /\
    exists w : list Z,
      c' = wrote w c /\
      forall (x0 : A) (rest out : list Z) (left size : Z),
        len w <= left ->
        parse x0 (reading (w ++ rest) out left size) =
          inr (x, reading rest out (left - len w) (size + len w)).

(** A direction-agnostic operation round-trips with itself. *)
Definition roundtrip {A : Type} (p : A -> M A) (ok : A -> Prop) : Prop :=
  roundtrip2 p p ok.

(** *** The registry and the state of a codec *)

(** What the sources leave out: the rows of [mng_all_vals] (built from
    [ids.h]) and the routine [n##_f] of each ID, as its list of field
    operations. *)
Class Setup := {
  mng_all_vals : list managementId_t;
  tlv_schema : mng_vals_e -> list field
}.

Section Frame.

Context `{Setup}.

(** A typed value: the structure [n##_t] of one ID (a [baseData]). *)
Record baseData := mkData {
  data_id : mng_vals_e;
  data_val : hval (tlv_schema data_id)
}.

(** The members of [class message] that outlive a call; the cursor lives
    within [build] and [parse]. *)
Record message := mkMessage {
  m_tlv_id : mng_vals_e;
  m_actionField : actionField_e;
  m_msgLen : Z;
  m_sequence : Z;
  m_isUnicast : bool;
  m_dataSend : option baseData;
  m_sendBufSize : Z;
  m_sendBuf : list Z;
  m_prms : msgParams;
  m_peer : PortIdentity_t;
  m_dataGet : option baseData;
  m_errorId : Z;
  m_errorDisplay : PTPText_t
}.

(** Modelled from the spec: the body of [updateParams] is missing.
    Section 6: replace runtime parameters; succeeds unless
    [domainNumber] or [boundaryHops] exceed 255. *)
Definition updateParams (prms : msgParams) (m : message) : bool * message :=
  if (255 <? domainNumber prms) || (255 <? boundaryHops prms) then (false, m)
  else
    (true,
     mkMessage (m_tlv_id m) (m_actionField m) (m_msgLen m) (m_sequence m)
       (m_isUnicast m) (m_dataSend m) (m_sendBufSize m) (m_sendBuf m) prms
       (m_peer m) (m_dataGet m) (m_errorId m) (m_errorDisplay m)).

(** [getParams]. *)
Definition getParams (m : message) : msgParams := m_prms m.

End Frame.

(** *** What the field operations keep *)

(** A build of [p] that succeeds stays a build and advances the size
    counter by [n]. *)
Definition writes {A : Type} (p : A -> M A) (n : Z) : Prop :=
  forall (x : A) (c : cursor) (x' : A) (c' : cursor),
    m_build c = true -> p x c = inr (x', c') ->
    m_build c' = true /\ m_size c' = m_size c + n.

(** An operation that fails reports an error, never OK. *)
Definition reports {A : Type} (m : M A) : Prop :=
  forall c : cursor, m c <> inl MNG_PARSE_ERROR_OK.

(** *** A sample registry

    Five rows in the manner of [ids.h], with the wire values of IEEE
    1588 and of linuxptp: an ID without data, [PRIORITY1] (one octet and
    a reserved one), [TIME] (a Timestamp), [FAULT_LOG] (a counted list of
    fault records, GET only) and the linuxptp-only [PORT_STATS_NP]. *)
Module Demo.

Definition NULL_MANAGEMENT : mng_vals_e := 0.
Definition PRIORITY1 : mng_vals_e := 1.
Definition TIME : mng_vals_e := 2.
Definition FAULT_LOG : mng_vals_e := 3.
Definition PORT_STATS_NP : mng_vals_e := 4.

(** The bits of the allowed actions. *)
Definition A_GET : Z := 1.
Definition A_SET : Z := 2.
Definition A_COMMAND : Z := 8.

Definition rows : list managementId_t :=
  [ {| value := 0x0000; scope := 0; allowed := A_GET + A_SET + A_COMMAND; size := 0 |};
    {| value := 0x2005; scope := 1; allowed := A_GET + A_SET; size := 2 |};
    {| value := 0x200F; scope := 1; allowed := A_GET + A_SET; size := 10 |};
    {| value := 0x0006; scope := 0; allowed := A_GET; size := -2 |};
    {| value := 0xC005; scope := 0; allowed := A_GET; size := -2 |} ].

Definition schema (id : mng_vals_e) : list field :=
  if id =? PRIORITY1 then [F_u8; F_reserved]
  else if id =? TIME then [F_Timestamp]
  else if id =? FAULT_LOG then [F_array 2 F_FaultRecord]
  else if id =? PORT_STATS_NP then [F_PortIdentity; F_u64le; F_u64le]
  else [].

Definition setup : Setup := {|
  mng_all_vals := rows;
  tlv_schema := schema
|}.

Definition all_ports : PortIdentity_t :=
  {| clockIdentity := {| v := replicate 8 0xff |}; portNumber := 0xffff |}.

Definition own_port : PortIdentity_t :=
  {| clockIdentity := {| v := [0; 1; 2; 3; 4; 5; 6; 7] |}; portNumber := 1 |}.

Definition params : msgParams := {|
  transportSpecific := 0;
  domainNumber := 0;
  boundaryHops := 1;
  isUnicast := false;
  useLinuxPTPTlvs := false;
  target := all_ports;
  self_id := own_port
|}.

(** A fresh codec. *)
Definition fresh : @message setup :=
  @mkMessage setup NULL_MANAGEMENT GET 0 0 false None 0 []
    params no_port None 0 no_text.

End Demo.

End Msg.

(** ** The two builders: what they are said to share *)

Module Outline.

Import MsgCall.

Section Outlined.

Context {Message Payload : Type}.
Context `{ProcTypes Payload} `{MessageApi Message Payload}.

(** The events of a builder other than the deletions: the allocations,
    the callbacks and the calls of [setAction], in their order. *)
Definition steps (es : list (@build_event)) : list build_event :=
  List.filter (fun e => match e with ev_delete _ => false | _ => true end) es.

(** The builder in the words of the claim: for [GET] or an empty ID the
    action is set; otherwise a default value is allocated, the build
    callback of the ID is invoked on it, and the action is set, with the
    value, only when the callback succeeds.  [cb] is the callback of the
    ID, absent when the ID has none.  The result, the message left and
    the steps taken. *)
Definition outline (cb : option (build_callback Message Payload))
    (a : actionField_e) (n : mng_vals_e) (s : @bstate Message Payload)
    : bool * Message * list build_event :=
  if is_GET a || isEmpty n then
    let r := setAction a n None (m_msg s) in
    (r.1, r.2, [ev_setAction a n None])
  else
    match cb with
    | Some cb =>
        let d := fresh (dom (store s)) in
        if (cb (m_msg s) (default_fields n)).1 then
          let r := setAction a n (Some d) (m_msg s) in
          (r.1, r.2, [ev_new n d; ev_b n d; ev_setAction a n (Some d)])
        else (false, m_msg s, [ev_new n d; ev_b n d])
    | None => (false, m_msg s, [])
    end.

End Outlined.

End Outline.

(** ** msgCall.i: the Python dispatcher and the constructors *)

Module PyCall.

Import MsgCall.

(** The exceptions the two Python classes raise. *)
Inductive py_exception :=
| AttributeError (text : string)
| Exception (text : string).

(** What [MessageDispatcher.callHadler] looks up besides
    [Message.mng2str_c]: the [conv_] functions of [globals()] (each takes
    a [BaseMngTlv] and yields the typed object or [None]) and the names of
    the attributes of [self.__class__] that exist and are callable. *)
Class PyDispatcher (Payload : Type) := {
  conv_globals : gmap string (BaseMngTlv Payload -> option Payload);
  class_callable : gset string
}.

Section PyDispatch.

Context {Message Payload : Type}.
Context `{MessageApi Message Payload} `{PyEnv Message Payload}.
Context `{PyDispatcher Payload}.

(** The methods the Python dispatcher may invoke: [self.noTlv(msg)] and
    [getattr(self, callback_name)(msg, data, idstr)]. *)
Inductive py_call :=
| py_noTlv (msg : Message)
| py_h (callback_name : string) (msg : Message) (data : Payload)
       (idstr : string).

(** The last statement of [callHadler]: [self.noTlv(msg)] when the class
    has a callable [noTlv]. *)
Definition py_fallback (msg : Message) : list py_call :=
  if bool_decide ("noTlv" ∈ class_callable) then [py_noTlv msg] else [].

(** [MessageDispatcher.callHadler(self, msg, tlv_id = -1, tlv = None)]:
    the exception raised, or the methods invoked. *)
Definition py_callHadler (msg : option Message) (tlv_id : mng_vals_e)
    (tlv : option (BaseMngTlv Payload)) : py_exception + list py_call :=
  match msg with
  | None =>
      inl (AttributeError
             "MessageDispatcher::callHadler() You must use Message object")
  | Some msg =>
      let '(tlv_id, tlv) :=
        match tlv with
        | None => (getTlvId msg, getData msg)
        | Some _ => (tlv_id, tlv)
        end in
      match tlv with
      | Some t =>
          let idstr := mng2str_c tlv_id in
          let callback_name := idstr +:+ "_h" in
          let conv_func := "conv_" +:+ idstr in
          match conv_globals !! conv_func with
          | Some conv =>
              if bool_decide (callback_name ∈ class_callable) then
                match conv t with
                | Some data => inr [py_h callback_name msg data idstr]
                | None => inr (py_fallback msg)
                end
              else inr (py_fallback msg)
          | None => inr (py_fallback msg)
          end
      | None => inr (py_fallback msg)
      end
  end.

(** [MessageDispatcher.__init__(self, msg = None)]; [abstract] is
    [type(self) is MessageDispatcher]. *)
Definition py_dispatcher_init (abstract : bool) (msg : option Message)
    : py_exception + list py_call :=
  if abstract then
    inl (Exception
           "MessageDispatcher is an abstract class and cannot be instantiated directly")
  else
    match msg with
    | Some m => py_callHadler (Some m) (-1) None
    | None => inr []
    end.

(** [MessageBulder.__init__(self, msg)]: the builder made, holding the
    message and no value yet. *)
Definition py_builder_init (abstract : bool) (msg : option Message)
    : py_exception + @bstate Message Payload :=
  if abstract then
    inl (Exception
           "MessageDispatcher is an abstract class and cannot be instantiated directly")
  else
    match msg with
    | None =>
        inl (AttributeError
               "MessageBulder::MessageBulder() You must use Message object")
    | Some m => inr (mkB m None ∅ [])
    end.

(** The Python method that stands for a member function of the C++
    dispatcher; [noTlvCallBack] has none. *)
Definition py_of_call (c : handler_call) : option py_call :=
  match c with
  | call_noTlv msg => Some (py_noTlv msg)
  | call_noTlvCallBack _ _ => None
  | call_h _ _ msg tlv idStr => Some (py_h (idStr +:+ "_h") msg tlv idStr)
  end.

(** The Python class defines the handlers the C++ class overrides:
    [mng2str_c] names an ID as [ids.h] does, a [conv_] function exists
    for the IDs with a dispatcher case and is the [dynamic_cast], a
    callable [n_h] exists where the C++ class overrides [n##_h], and both
    classes have [noTlv]. *)
Record same_handlers `{IdsTable} `{DispatcherClass} : Prop := {
  names_agree : forall n, mng2str_c n = id_str n;
  conv_is_cast : forall n,
    conv_globals !! ("conv_" +:+ mng2str_c n) =
      if ptpmCaseUF n then Some (dynamic_cast n) else None;
  callable_is_override : forall n,
    mng2str_c n +:+ "_h" ∈ class_callable <->
    ptpmCaseUF n = true /\ overrides_h n = true;
  noTlv_callable : "noTlv" ∈ class_callable
}.

End PyDispatch.

End PyCall.

(** *** More of the sample configuration

    A C++ dispatcher whose user class overrides [PRIORITY1_h], and the
    Python class that defines the same handler. *)
Module SampleCalls.

Import MsgCall MsgCall.Sample PyCall.

Definition user_dispatcher : DispatcherClass :=
  {| gnuc := true; overrides_h n := n =? PRIORITY1 |}.

Definition py_dispatcher : PyDispatcher (list Z) := {|
  conv_globals :=
    {[ "conv_PRIORITY1" := dynamic_cast PRIORITY1;
       "conv_FAULT_LOG" := dynamic_cast FAULT_LOG ]};
  class_callable := {[ "PRIORITY1_h"; "noTlv" ]}
|}.

(** A message that carries a [FAULT_LOG], and a builder that holds a
    [PRIORITY1] built before. *)
Definition msg_fault_log : message :=
  mkMsg FAULT_LOG GET None (Some (mkTlv FAULT_LOG [])).

Definition built : @bstate message (list Z) :=
  mkB (mkMsg PRIORITY1 SET (Some 1%positive) None) (Some 1%positive)
      {[ 1%positive := mkTlv PRIORITY1 [128] ]} [].

(** A message class that accepts [SET] for [FAULT_LOG] as well, and a
    Python side with a class [FAULT_LOG_t] and a callable [FAULT_LOG_b],
    for which the C++ builder has no case. *)
Definition api_lenient : MessageApi message (list Z) := {|
  getTlvId := msg_tlv_id;
  getData := msg_dataGet;
  isEmpty n := n =? NULL_MANAGEMENT;
  setAction a n tlv m :=
    if allowed a n || ((n =? FAULT_LOG) && (action_value a =? action_value SET))
    then (true, mkMsg n a tlv (msg_dataGet m)) else (false, m)
|}.

Definition FAULT_LOG_b : build_callback message (list Z) :=
  fun msg tlv => (true, [0; 0]).

Definition python_more : PyEnv message (list Z) := {|
  py_globals :=
    {[ "PRIORITY1_t" := Some (mkTlv PRIORITY1 []);
       "FAULT_LOG_t" := Some (mkTlv FAULT_LOG []) ]};
  py_class := {[ "PRIORITY1_b" := PRIORITY1_b; "FAULT_LOG_b" := FAULT_LOG_b ]};
  mng2str_c := @id_str ids
|}.

End SampleCalls.

(** ** msgCall.cpp: what the dispatcher hands over *)

Module Dispatch.

Import MsgCall.

(** The message a member function is invoked with. *)
Definition call_msg {Message Payload : Type}
    (c : @handler_call Message Payload) : Message :=
  match c with
  | call_noTlv msg | call_noTlvCallBack msg _ | call_h _ _ msg _ _ => msg
  end.

End Dispatch.

(** ** msgCall.cpp: the builder and the free store *)

Module Ownership.

Import MsgCall.

Section Held.

Context {Message Payload : Type}.

(** The free store holds the object of [m_tlv] and nothing else: nothing
    leaked, nothing dangling. *)
Definition holds_exactly (s : @bstate Message Payload) : Prop :=
  forall l : loc, is_Some (store s !! l) <-> m_tlv s = Some l.

End Held.

End Ownership.

(** ** msg.h: move, in the arithmetic of the machine *)

Module Cursor.

(** [size_t] and [ssize_t], of 64 bits, and the conversions to them. *)
Definition size_t (x : Z) : Prop := 0 <= x < 2 ^ 64.
Definition ssize_t (x : Z) : Prop := - 2 ^ 63 <= x < 2 ^ 63.
Definition to_size_t (x : Z) : Z := x mod 2 ^ 64.
Definition to_ssize_t (x : Z) : Z := (x + 2 ^ 63) mod 2 ^ 64 - 2 ^ 63.

(** [m_cur], [m_left] and [m_size] of [class message].  The pointer
    [m_cur] is kept as its offset from the start of the array it points
    into. *)
Record position := mkPos {
  m_cur : Z;
  m_left : Z;
  m_size : Z
}.

(** [message::move]: [m_cur += val; m_left -= val; m_size += val;] with
    [val] a [size_t].  [room] is the number of octets of the array: a
    pointer moved past its end is undefined, which [None] stands for.
    [m_left -= val] is computed in [size_t] and converted back to
    [ssize_t]; [m_size += val] wraps. *)
Definition move (room : Z) (val : Z) (p : position) : option position :=
  if m_cur p + val <=? room then
    Some (mkPos (m_cur p + val)
                (to_ssize_t (to_size_t (to_size_t (m_left p) - val)))
                (to_size_t (m_size p + val)))
  else None.

(** The position of a parsing cursor of the codec over an array of
    [room] octets. *)
Definition position_of (room : Z) (c : Msg.cursor) : position :=
  mkPos (room - Msg.len (Msg.m_cur c)) (Msg.m_left c) (Msg.m_size c).

End Cursor.

(** ** msg.h: comparing intervals *)

Module IntervalOrder.

Import Interval.

(** [x < y] on [double]. *)
Definition double_lt (x y : double) : bool := SFltb x y.

End IntervalOrder.

(** ** msg.h: the flag tests and the cursor *)

Module Flags.

(** [uint8_t]. *)
Definition uint8_t (x : Z) : Prop := 0 <= x < 256.

(** [flags & (1 << 0) ? 1 : 0] and the five like it. *)
Definition is_LI_61 (flags : Z) : Z :=
  if negb (Z.land flags (Z.shiftl 1 0) =? 0) then 1 else 0.
Definition is_LI_59 (flags : Z) : Z :=
  if negb (Z.land flags (Z.shiftl 1 1) =? 0) then 1 else 0.
Definition is_UTCV (flags : Z) : Z :=
  if negb (Z.land flags (Z.shiftl 1 2) =? 0) then 1 else 0.
Definition is_PTP (flags : Z) : Z :=
  if negb (Z.land flags (Z.shiftl 1 3) =? 0) then 1 else 0.
Definition is_TTRA (flags : Z) : Z :=
  if negb (Z.land flags (Z.shiftl 1 4) =? 0) then 1 else 0.
Definition is_FTRA (flags : Z) : Z :=
  if negb (Z.land flags (Z.shiftl 1 5) =? 0) then 1 else 0.

(** The six tests, by the bit each reads. *)
Definition flag_tests : list (Z -> Z) :=
  [is_LI_61; is_LI_59; is_UTCV; is_PTP; is_TTRA; is_FTRA].

End Flags.

(** * Part II: theorems *)

Import MsgCall.

Section DispatcherFacts.

Context {Message Payload : Type}.
Context `{IdsTable} `{MessageApi Message Payload} `{DispatcherClass}.

Lemma callHadler3_null (msg : Message) (tlv_id : mng_vals_e) :
  callHadler3 msg tlv_id (@None (BaseMngTlv Payload)) = Some [call_noTlv msg].
Proof. reflexivity. Qed.

(** C4: a message whose decoded TLV is null makes [callHadler] invoke
    [noTlv(msg)] and nothing else: no per-ID handler, no [noTlvCallBack]. *)
Theorem callHadler_null_data (msg : Message) :
  getData msg = None ->
  callHadler msg = Some [call_noTlv msg].
Proof.
  intros Hdata. unfold callHadler. rewrite Hdata. apply callHadler3_null.
Qed.

(** C5 (amended): compiled with [__GNUC__], a message carrying a TLV whose
    ID has a dispatcher case and whose handler is not overridden makes
    [callHadler] invoke [noTlvCallBack(msg, #n)] and nothing else. *)
Theorem callHadler_not_overridden (msg : Message) (t : BaseMngTlv Payload) :
  gnuc = true ->
  getData msg = Some t ->
  ptpmCaseUF (getTlvId msg) = true ->
  overrides_h (getTlvId msg) = false ->
  callHadler msg = Some [call_noTlvCallBack msg (id_str (getTlvId msg))].
Proof.
  intros Hgnuc Hdata Hcase Hover.
  unfold callHadler, callHadler3, check_inherit.
  rewrite Hdata, Hcase, Hgnuc, Hover. reflexivity.
Qed.

(** Without [__GNUC__] the same message reaches the handler of the base
    class. *)
Lemma callHadler_no_gnuc (msg : Message) (t : BaseMngTlv Payload) :
  gnuc = false ->
  getData msg = Some t ->
  ptpmCaseUF (getTlvId msg) = true ->
  tlv_type t = getTlvId msg ->
  callHadler msg =
    Some [call_h (getTlvId msg) (overrides_h (getTlvId msg)) msg
            (tlv_fields t) (id_str (getTlvId msg))].
Proof.
  intros Hgnuc Hdata Hcase Hty.
  unfold callHadler, callHadler3, check_inherit, dynamic_cast.
  rewrite Hdata, Hcase, Hgnuc, Hty, Z.eqb_refl. reflexivity.
Qed.

End DispatcherFacts.

Section BuilderFacts.

Context {Message Payload : Type}.
Context `{IdsTable} `{ProcTypes Payload} `{MessageApi Message Payload}.
Context `{BuilderClass Message Payload}.

Implicit Types (a : actionField_e) (n : mng_vals_e).
Implicit Types (s : @bstate Message Payload).

Lemma is_GET_spec a : is_GET a = true <-> a = GET.
Proof. destruct a; cbn; split; intros; congruence. Qed.

Lemma is_GET_false a : a <> GET -> is_GET a = false.
Proof. destruct a; cbn; congruence. Qed.

Lemma fresh_loc_unused s : store s !! fresh (dom (store s)) = None.
Proof. apply not_elem_of_dom, is_fresh. Qed.

Lemma owned_not_fresh s old :
  owns s -> m_tlv s = Some old -> old <> fresh (dom (store s)).
Proof.
  intros Hown Hold Heq. destruct (Hown old Hold) as [v Hv].
  rewrite Heq, fresh_loc_unused in Hv. discriminate.
Qed.

(** What [buildTlv] does past the shortcut when [ids.h] gives the ID a
    builder case. *)
Lemma buildTlv_case_unfold a n s :
  a <> GET -> isEmpty n = false -> ptpmCaseUFB n = true ->
  let d := fresh (dom (store s)) in
  let cb := n_b n (m_msg s) (default_fields n) in
  let s2 := mkB (m_msg s) (m_tlv s) (<[d := mkTlv n cb.2]> (store s))
                (trace s ++ [ev_new n d; ev_b n d]) in
  buildTlv a n s =
    if cb.1 then call_setAction a n (Some d) (reset d s2)
    else (false, free d s2).
Proof.
  intros Ha He Hc. unfold buildTlv.
  rewrite (is_GET_false a Ha), He, Hc. cbn.
  unfold call_b. cbn. rewrite lookup_insert_eq. cbn.
  destruct (n_b n (m_msg s) (default_fields n)) as [ok f1]. cbn.
  rewrite insert_insert_eq. unfold emit. cbn. rewrite <- app_assoc.
  reflexivity.
Qed.

(** C2: when the action is [GET] or the ID is empty, [buildTlv] returns
    what [setAction(actionField, tlv_id)] returns; the short form of
    [setAction] is its only effect: nothing is allocated, the free store
    and [m_tlv] stay as they were. *)
Theorem buildTlv_get_or_empty a n s :
  a = GET \/ isEmpty n = true ->
  buildTlv a n s =
    ((setAction a n None (m_msg s)).1,
     mkB (setAction a n None (m_msg s)).2 (m_tlv s) (store s)
         (trace s ++ [ev_setAction a n None])).
Proof.
  intros Hshort. unfold buildTlv.
  assert (is_GET a || isEmpty n = true) as ->.
  { destruct Hshort as [-> | ->]; [reflexivity | apply orb_true_r]. }
  unfold call_setAction. destruct (setAction a n None (m_msg s)). reflexivity.
Qed.

(** C3 (amended): for a non-[GET] action on a non-empty ID that has a
    builder case in [ids.h], [buildTlv] allocates a default-constructed
    [n##_t] and invokes [n##_b] on it; when the callback succeeds the
    builder takes the value over (deleting the one held before), calls
    [setAction(actionField, tlv_id, tlv)] and returns its result, and the
    value stays alive in the free store, held by [m_tlv]. *)
Theorem buildTlv_builder_case a n s :
  owns s -> a <> GET -> isEmpty n = false -> ptpmCaseUFB n = true ->
  let d := fresh (dom (store s)) in
  (exists rest,
     trace (buildTlv a n s).2 = trace s ++ ev_new n d :: ev_b n d :: rest) /\
  (forall f1, n_b n (m_msg s) (default_fields n) = (true, f1) ->
     let r := setAction a n (Some d) (m_msg s) in
     let held := match m_tlv s with Some old => [ev_delete old] | None => [] end in
     exists st,
       buildTlv a n s =
         (r.1, mkB r.2 (Some d) st
                   (trace s ++ [ev_new n d; ev_b n d] ++ held ++
                    [ev_setAction a n (Some d)])) /\
       st !! d = Some (mkTlv n f1)).
Proof.
  intros Hown Ha He Hc d. rewrite (buildTlv_case_unfold a n s Ha He Hc).
  fold d. cbn zeta. split.
  - destruct (n_b n (m_msg s) (default_fields n)) as [[] f1]; cbn.
    + unfold call_setAction, reset, free, emit. cbn.
      destruct (m_tlv s) as [old|]; cbn;
        destruct (setAction a n (Some d) (m_msg s)); cbn;
        rewrite <- !app_assoc; eexists; reflexivity.
    + rewrite <- app_assoc. eexists. reflexivity.
  - intros f1 Hcb. rewrite Hcb. cbn.
    unfold call_setAction, reset, free, emit. cbn.
    destruct (m_tlv s) as [old|] eqn:Hold; cbn;
      destruct (setAction a n (Some d) (m_msg s)) as [r msg2]; cbn.
    + eexists. split.
      * rewrite <- !app_assoc. reflexivity.
      * rewrite lookup_delete_ne by (apply (owned_not_fresh s old Hown Hold)).
        apply lookup_insert_eq.
    + eexists. split.
      * rewrite <- !app_assoc. reflexivity.
      * apply lookup_insert_eq.
Qed.

(** C9: for a non-[GET] action on a non-empty ID, when the ID has no
    builder case or its callback answers [false], [buildTlv] returns
    [false] and never calls [setAction]: the message, [m_tlv] and the free
    store are as before, the value allocated for the callback having been
    deleted. *)
Theorem buildTlv_not_built a n s :
  a <> GET -> isEmpty n = false ->
  ptpmCaseUFB n = false \/ (n_b n (m_msg s) (default_fields n)).1 = false ->
  let d := fresh (dom (store s)) in
  buildTlv a n s =
    (false,
     mkB (m_msg s) (m_tlv s) (store s)
         (trace s ++
          if ptpmCaseUFB n then [ev_new n d; ev_b n d; ev_delete d] else [])) /\
  setAction_calls (trace (buildTlv a n s).2) = setAction_calls (trace s).
Proof.
  intros Ha He Hfail d.
  assert (buildTlv a n s =
    (false,
     mkB (m_msg s) (m_tlv s) (store s)
         (trace s ++
          if ptpmCaseUFB n then [ev_new n d; ev_b n d; ev_delete d] else [])))
    as Hrun.
  { destruct (ptpmCaseUFB n) eqn:Hc.
    - destruct Hfail as [Hfail | Hfail]; [discriminate |].
      rewrite (buildTlv_case_unfold a n s Ha He Hc). fold d. cbn zeta.
      rewrite Hfail. unfold free, emit. cbn.
      rewrite delete_insert_eq, (delete_id _ _ (fresh_loc_unused s)).
      rewrite <- app_assoc. reflexivity.
    - unfold buildTlv. rewrite (is_GET_false a Ha), He, Hc. cbn.
      rewrite app_nil_r. destruct s; reflexivity. }
  split; [exact Hrun |].
  rewrite Hrun. cbn. unfold setAction_calls. rewrite omap_app.
  destruct (ptpmCaseUFB n); cbn; apply app_nil_r.
Qed.

End BuilderFacts.

Section PythonBuilder.

Import Outline.

Context {Message Payload : Type}.
Context `{IdsTable} `{ProcTypes Payload} `{MessageApi Message Payload}.
Context `{BuilderClass Message Payload} `{PyEnv Message Payload}.

Implicit Types (a : actionField_e) (n : mng_vals_e).
Implicit Types (s : @bstate Message Payload).

Lemma setAction_calls_app (es1 es2 : list build_event) :
  setAction_calls (es1 ++ es2) = setAction_calls es1 ++ setAction_calls es2.
Proof. apply omap_app. Qed.

Lemma call_setAction_parts a n tlv s :
  call_setAction a n tlv s =
    ((setAction a n tlv (m_msg s)).1,
     mkB (setAction a n tlv (m_msg s)).2 (m_tlv s) (store s)
         (trace s ++ [ev_setAction a n tlv])).
Proof.
  unfold call_setAction. now destruct (setAction a n tlv (m_msg s)).
Qed.

Lemma steps_app (es1 es2 : list build_event) :
  steps (es1 ++ es2) = steps es1 ++ steps es2.
Proof. apply List.filter_app. Qed.

Lemma setAction_calls_steps (es : list build_event) :
  setAction_calls (steps es) = setAction_calls es.
Proof.
  unfold setAction_calls, steps.
  induction es as [|e es IH]; [reflexivity |].
  destruct e; cbn; rewrite ?IH; reflexivity.
Qed.

(** The Python builder past the shortcut, by what it finds. *)
Lemma py_buildTlv_unfold a n s :
  a <> GET -> isEmpty n = false ->
  py_buildTlv a n s =
    match py_lookup n with
    | Some (Some v, cb) =>
        let d := fresh (dom (store s)) in
        let s2 := mkB (m_msg s) (m_tlv s)
                      (<[d := mkTlv (tlv_type v) (cb (m_msg s) (tlv_fields v)).2]>
                         (store s))
                      (trace s ++ [ev_new n d; ev_b n d]) in
        if (cb (m_msg s) (tlv_fields v)).1 then
          let r := call_setAction a n (Some d) s2 in
          if r.1 then (true, py_bind d r.2) else (false, py_drop d r.2)
        else (false, py_drop d s2)
    | _ => (false, s)
    end.
Proof.
  intros Ha He. unfold py_buildTlv, py_lookup.
  rewrite (is_GET_false a Ha), He. cbn.
  destruct (py_globals !! (mng2str_c n +:+ "_t")) as [[v|]|];
    destruct (py_class !! (mng2str_c n +:+ "_b")) as [cb|];
    try reflexivity.
  unfold call_b. cbn. rewrite lookup_insert_eq. cbn.
  destruct (cb (m_msg s) (tlv_fields v)) as [ok f1]. cbn.
  rewrite insert_insert_eq. unfold emit. cbn. rewrite <- app_assoc. cbn.
  destruct ok; [| reflexivity].
  destruct (call_setAction a n _ _) as [r s3]. reflexivity.
Qed.

(** The C++ builder follows the outline: its result, the message it
    leaves and the steps it takes. *)
Lemma buildTlv_outline a n s :
  let o := outline (if ptpmCaseUFB n then Some (n_b n) else None) a n s in
  (buildTlv a n s).1 = o.1.1 /\ m_msg (buildTlv a n s).2 = o.1.2 /\
  steps (trace (buildTlv a n s).2) = steps (trace s) ++ o.2.
Proof.
  cbn zeta. unfold outline.
  destruct (is_GET a || isEmpty n) eqn:Hshort.
  { unfold buildTlv. rewrite Hshort, call_setAction_parts. cbn.
    rewrite steps_app. auto. }
  apply orb_false_elim in Hshort as [Hget He].
  assert (a <> GET) as Ha by (intros ->; discriminate Hget).
  destruct (ptpmCaseUFB n) eqn:Hc.
  2:{ unfold buildTlv. rewrite (is_GET_false a Ha), He, Hc. cbn.
      rewrite app_nil_r. auto. }
  rewrite (buildTlv_case_unfold a n s Ha He Hc). cbn zeta.
  destruct (n_b n (m_msg s) (default_fields n)) as [[] f1]; cbn [fst snd].
  - rewrite call_setAction_parts. unfold reset, free, emit.
    destruct (m_tlv s) as [old|]; cbn;
      rewrite !steps_app; cbn; rewrite ?app_nil_r, <- ?app_assoc; auto.
  - unfold free, emit. cbn. rewrite !steps_app. cbn. rewrite ?app_nil_r. auto.
Qed.

(** The Python builder follows the outline with the callback it finds,
    when the class it finds makes a default value. *)
Lemma py_buildTlv_outline a n s (cb : build_callback Message Payload) :
  py_lookup n = Some (Some (mkTlv n (default_fields n)), cb) ->
  let o := outline (Some cb) a n s in
  (py_buildTlv a n s).1 = o.1.1 /\ m_msg (py_buildTlv a n s).2 = o.1.2 /\
  steps (trace (py_buildTlv a n s).2) = steps (trace s) ++ o.2.
Proof.
  intros Hlook. cbn zeta. unfold outline.
  destruct (is_GET a || isEmpty n) eqn:Hshort.
  { unfold py_buildTlv. rewrite Hshort, call_setAction_parts. cbn.
    rewrite steps_app. auto. }
  apply orb_false_elim in Hshort as [Hget He].
  assert (a <> GET) as Ha by (intros ->; discriminate Hget).
  rewrite (py_buildTlv_unfold a n s Ha He), Hlook. cbn zeta.
  cbn [tlv_type tlv_fields].
  destruct (cb (m_msg s) (default_fields n)) as [[] f1]; cbn [fst snd].
  - rewrite call_setAction_parts. cbn [fst snd m_msg m_tlv store trace].
    destruct (setAction a n (Some (fresh (dom (store s)))) (m_msg s))
      as [[] m']; cbn [fst snd].
    + unfold py_bind, free, emit. cbn [m_msg m_tlv store trace].
      destruct (m_tlv s) as [old|]; [case_bool_decide |]; cbn;
        rewrite !steps_app; cbn; rewrite ?app_nil_r, <- ?app_assoc; auto.
    + unfold py_drop, free, emit. cbn.
      rewrite !steps_app. cbn. rewrite ?app_nil_r, <- ?app_assoc. auto.
  - unfold py_drop, free, emit. cbn. rewrite !steps_app. cbn.
    rewrite ?app_nil_r. auto.
Qed.


End PythonBuilder.

(** ** Runs of the sample configuration *)

Section SampleRuns.

Import Sample.

#[local] Existing Instance ids.
#[local] Existing Instance proc.
#[local] Existing Instance api.
#[local] Existing Instance builder.
#[local] Existing Instance python.

Lemma callHadler_null_data_witness :
  getData msg_empty = None /\
  @callHadler _ _ ids api gnu_dispatcher msg_empty = Some [call_noTlv msg_empty].
Proof.
  split; [reflexivity |].
  apply (@callHadler_null_data _ _ ids api gnu_dispatcher msg_empty).
  reflexivity.
Defined.

Lemma callHadler_not_overridden_witness :
  @callHadler _ _ ids api gnu_dispatcher msg_priority1 =
    Some [call_noTlvCallBack msg_priority1 "PRIORITY1"].
Proof.
  apply (@callHadler_not_overridden _ _ ids api gnu_dispatcher msg_priority1
           (mkTlv PRIORITY1 [128])); reflexivity.
Defined.

(** C5 as stated fails where the compiler does not define [__GNUC__]: the
    handler of the base class is invoked and [noTlvCallBack] is not. *)
Lemma callHadler_other_compiler_counterexample :
  @overrides_h other_dispatcher (getTlvId msg_priority1) = false /\
  @callHadler _ _ ids api other_dispatcher msg_priority1 =
    Some [call_h PRIORITY1 false msg_priority1 [128] "PRIORITY1"] /\
  @callHadler _ _ ids api other_dispatcher msg_priority1 <>
    Some [call_noTlvCallBack msg_priority1 "PRIORITY1"].
Proof.
  split; [reflexivity |]. split; [reflexivity |]. discriminate.
Defined.

Lemma buildTlv_get_or_empty_witness :
  buildTlv GET PRIORITY1 start =
    (true, mkB (mkMsg PRIORITY1 GET None None) None ∅
               [ev_setAction GET PRIORITY1 None]) /\
  buildTlv COMMAND NULL_MANAGEMENT start =
    (true, mkB (mkMsg NULL_MANAGEMENT COMMAND None None) None ∅
               [ev_setAction COMMAND NULL_MANAGEMENT None]).
Proof.
  split.
  - exact (buildTlv_get_or_empty GET PRIORITY1 start (or_introl eq_refl)).
  - exact (buildTlv_get_or_empty COMMAND NULL_MANAGEMENT start
             (or_intror eq_refl)).
Defined.

Lemma start_owns : owns start.
Proof. intros old Hold. discriminate Hold. Qed.

Lemma buildTlv_builder_case_witness :
  let d := fresh (dom (store start)) in
  (exists rest,
     trace (buildTlv SET PRIORITY1 start).2 =
       trace start ++ ev_new PRIORITY1 d :: ev_b PRIORITY1 d :: rest) /\
  (forall f1, n_b PRIORITY1 (m_msg start) (default_fields PRIORITY1) = (true, f1) ->
     let r := setAction SET PRIORITY1 (Some d) (m_msg start) in
     let held := match m_tlv start with Some old => [ev_delete old] | None => [] end in
     exists st,
       buildTlv SET PRIORITY1 start =
         (r.1, mkB r.2 (Some d) st
                   (trace start ++ [ev_new PRIORITY1 d; ev_b PRIORITY1 d] ++ held ++
                    [ev_setAction SET PRIORITY1 (Some d)])) /\
       st !! d = Some (mkTlv PRIORITY1 f1)).
Proof.
  apply (buildTlv_builder_case SET PRIORITY1 start).
  - intros old Hold. discriminate Hold.
  - discriminate.
  - reflexivity.
  - reflexivity.
Defined.

(** C3 as stated fails for an ID without a builder case: [FAULT_LOG] is
    not empty and the action is [SET], yet nothing is allocated and no
    callback runs. *)
Lemma buildTlv_no_builder_case_counterexample :
  SET <> GET /\ isEmpty FAULT_LOG = false /\
  buildTlv SET FAULT_LOG start = (false, start) /\
  ~ (exists d rest,
       trace (buildTlv SET FAULT_LOG start).2 =
         trace start ++ ev_new FAULT_LOG d :: rest).
Proof.
  split; [discriminate |]. split; [reflexivity |]. split; [reflexivity |].
  intros (d & rest & Htrace). discriminate Htrace.
Defined.

Lemma buildTlv_not_built_witness :
  let d := fresh (dom (store start)) in
  buildTlv COMMAND FAULT_LOG start =
    (false,
     mkB (m_msg start) (m_tlv start) (store start)
         (trace start ++
          if ptpmCaseUFB FAULT_LOG
          then [ev_new FAULT_LOG d; ev_b FAULT_LOG d; ev_delete d] else [])) /\
  setAction_calls (trace (buildTlv COMMAND FAULT_LOG start).2) =
    setAction_calls (trace start).
Proof.
  apply (buildTlv_not_built COMMAND FAULT_LOG start).
  - discriminate.
  - reflexivity.
  - left. reflexivity.
Defined.

Lemma sample_same_callbacks : same_callbacks.
Proof.
  split.
  - intros n ctor cb. unfold py_lookup. cbn.
    destruct (n =? PRIORITY1) eqn:E0.
    + apply Z.eqb_eq in E0 as ->. vm_compute.
      intros [= <- <-]. auto.
    + destruct (n =? FAULT_LOG); [vm_compute; discriminate |].
      destruct (n =? NULL_MANAGEMENT); vm_compute; discriminate.
  - intros n msg f Hlook Hc. cbn in Hc.
    apply Z.eqb_eq in Hc as ->. vm_compute in Hlook. discriminate Hlook.
Qed.



End SampleRuns.

(** ** getInterval *)

Section IntervalFacts.

Import Interval.

Lemma getInterval_samples :
  getInterval {| scaledNanoseconds := 0 |} = S754_zero false /\
  getInterval {| scaledNanoseconds := 65536 |} =
    S754_finite false 4503599627370496 (-52) /\
  getInterval {| scaledNanoseconds := 98304 |} =
    S754_finite false 6755399441055744 (-52).
Proof. repeat split; vm_compute; reflexivity. Qed.

(** C7: the code reads a negative interval wrongly.  [msg.h] declares
    [scaledNanoseconds] a [uint64_t], under "IEEE 1558 PTP data types",
    where a TimeInterval is a signed count of 2^-16 ns.  The bits of
    -1 ns (-65536 scaled) are read as a large unsigned count:
    [getInterval] yields 281474976710655.0, where [value / 65536.0] is
    -1.0. *)
Theorem getInterval_minus_one_ns :
  getInterval {| scaledNanoseconds := to_uint64 (-65536) |} = two48_minus_one /\
  interval_of_signed (-65536) = minus_one /\
  getInterval {| scaledNanoseconds := to_uint64 (-65536) |} <>
    interval_of_signed (-65536).
Proof.
  split; [vm_compute; reflexivity |].
  split; [vm_compute; reflexivity |].
  vm_compute. discriminate.
Qed.

Lemma binary_round_aux_sign (sx : bool) (mx ex : Z) (lx : location) :
  binary_round_aux prec emax sx mx ex lx = S754_nan \/
  is_negative (binary_round_aux prec emax sx mx ex lx) = sx.
Proof.
  unfold binary_round_aux.
  destruct (shr_fexp prec emax mx ex lx) as [mrs' e'].
  destruct (shr_fexp prec emax _ e' loc_Exact) as [mrs'' e''].
  destruct (shr_m mrs'') as [|m|m]; cbn; auto.
  destruct (e'' <=? emax - prec); cbn; auto.
Qed.

Lemma double_of_Z_sign (z : Z) :
  0 <= z ->
  double_of_Z z = S754_nan \/ is_negative (double_of_Z z) = false.
Proof.
  intros Hz. unfold double_of_Z, binary_normalize.
  destruct z as [|p|p]; [cbn; auto | | lia].
  unfold binary_round.
  destruct (shl_align p 0 _) as [mz ez]. apply binary_round_aux_sign.
Qed.

(** Whatever the field holds, [getInterval] never yields a negative
    number. *)
Lemma getInterval_not_negative (v : TimeInterval_t) :
  0 <= scaledNanoseconds v ->
  is_negative (getInterval v) = false.
Proof.
  intros Hv. unfold getInterval, double_div.
  replace (double_of_Z 65536) with (S754_finite false 4503599627370496 (-36))
    by (vm_compute; reflexivity).
  destruct (double_of_Z_sign _ Hv) as [Hnan | Hsign].
  - rewrite Hnan. reflexivity.
  - destruct (double_of_Z (scaledNanoseconds v)) as [s|s| |s m e];
      cbn in Hsign; subst; cbn; try reflexivity.
    destruct (SFdiv_core_binary prec emax _ e _ _) as [[mz ez] lz].
    destruct (binary_round_aux_sign false mz ez lz) as [-> | ->];
      reflexivity.
Qed.

End IntervalFacts.

(** ** The codec *)

Section CodecFacts.

Import Msg.

Lemma bind_inr {A B : Type} (m : M A) (k : A -> M B) (c : cursor) (r : B * cursor) :
  (m ≫= k) c = inr r -> exists a c1, m c = inr (a, c1) /\ k a c1 = inr r.
Proof.
  unfold mbind, M_bind. destruct (m c) as [e | [a c1]]; [discriminate |].
  intros Hk. eauto.
Qed.

Lemma bind_run {A B : Type} (m : M A) (k : A -> M B) (c c1 : cursor) (a : A) :
  m c = inr (a, c1) -> (m ≫= k) c = k a c1.
Proof. unfold mbind, M_bind. intros ->. reflexivity. Qed.

Lemma len_app (l1 l2 : list Z) : len (l1 ++ l2) = len l1 + len l2.
Proof. unfold len. rewrite length_app. lia. Qed.

Lemma len_nonneg (l : list Z) : 0 <= len l.
Proof. unfold len. lia. Qed.

Lemma wrote_nil (c : cursor) : m_build c = true -> wrote [] c = c.
Proof.
  intros Hb. destruct c as [b cur out left size]. cbn in Hb. subst b.
  unfold wrote, len. cbn. rewrite app_nil_r. f_equal; lia.
Qed.

Lemma wrote_app (w1 w2 : list Z) (c : cursor) :
  wrote w2 (wrote w1 c) = wrote (w1 ++ w2) c.
Proof.
  unfold wrote. cbn. rewrite drop_drop, length_app, app_assoc, len_app.
  f_equal; lia.
Qed.

Lemma wrote_build (w : list Z) (c : cursor) : m_build (wrote w c) = true.
Proof. reflexivity. Qed.

(** *** Octets and integers *)

Lemma be_bytes_length (n : nat) (x : Z) : length (be_bytes n x) = n.
Proof. induction n as [| k IH]; cbn; [reflexivity | now rewrite IH]. Qed.

Lemma be_bytes_len (n : nat) (x : Z) : len (be_bytes n x) = Z.of_nat n.
Proof. unfold len. now rewrite be_bytes_length. Qed.

Lemma be_bytes_fold (n : nat) (x acc : Z) :
  foldl (fun a b => a * 256 + b) acc (be_bytes n x) =
    acc * 256 ^ Z.of_nat n + x mod 256 ^ Z.of_nat n.
Proof.
  revert acc. induction n as [| k IH]; intros acc.
  - cbn. rewrite Z.mod_1_r. lia.
  - cbn [be_bytes foldl]. rewrite IH.
    rewrite Nat2Z.inj_succ, Z.pow_succ_r by lia.
    rewrite (Z.mul_comm 256 (256 ^ Z.of_nat k)).
    rewrite (Z.rem_mul_r x (256 ^ Z.of_nat k) 256) by lia. lia.
Qed.

Lemma be_value_bytes (n : nat) (x : Z) :
  be_value (be_bytes n x) = x mod 256 ^ Z.of_nat n.
Proof. unfold be_value. rewrite be_bytes_fold. lia. Qed.

Lemma be_value_bytes_small (n : nat) (x : Z) :
  0 <= x < 256 ^ Z.of_nat n -> be_value (be_bytes n x) = x.
Proof. intros Hx. rewrite be_value_bytes. now apply Z.mod_small. Qed.

Lemma pow256 (n : nat) : 256 ^ Z.of_nat n = 2 ^ (8 * Z.of_nat n).
Proof. rewrite Z.pow_mul_r by lia. reflexivity. Qed.

Lemma sign_extend_mod (bits x : Z) :
  0 < bits -> sint bits x -> sign_extend bits (x mod 2 ^ bits) = x.
Proof.
  intros Hbits [Hlo Hhi]. unfold sign_extend.
  assert (2 ^ bits = 2 * 2 ^ (bits - 1)) as Hpow.
  { rewrite <- Z.pow_succ_r by lia. f_equal. lia. }
  assert (0 < 2 ^ (bits - 1)) by (apply Z.pow_pos_nonneg; lia).
  destruct (Z_lt_le_dec x 0) as [Hneg | Hpos].
  - replace (x mod 2 ^ bits) with (x + 2 ^ bits)
      by (apply (Z.mod_unique _ _ (-1)); lia).
    destruct (Z.ltb_spec (x + 2 ^ bits) (2 ^ (bits - 1))); lia.
  - rewrite Z.mod_small by lia.
    destruct (Z.ltb_spec x (2 ^ (bits - 1))); lia.
Qed.

Lemma octets_build (short : MNG_PARSE_ERROR_e) (n : nat) (val : list Z) (c : cursor) :
  m_build c = true ->
  octets short n val c =
    if m_left c <? Z.of_nat n then inl MNG_PARSE_ERROR_TOO_SMALL
    else inr (resize n 0 val, wrote (resize n 0 val) c).
Proof.
  intros Hb. unfold octets. rewrite Hb.
  destruct (m_left c <? Z.of_nat n); [reflexivity |].
  unfold wrote, move, len. cbn. rewrite length_resize, Nat2Z.id.
  reflexivity.
Qed.

Lemma octets_parse (short : MNG_PARSE_ERROR_e) (n : nat) (x0 w rest out : list Z)
    (left size : Z) :
  length w = n -> len w <= left ->
  octets short n x0 (reading (w ++ rest) out left size) =
    inr (w, reading rest out (left - len w) (size + len w)).
Proof.
  intros Hn Hleft. unfold octets, reading, len in *. cbn.
  rewrite length_app, <- Hn.
  destruct (Z.ltb_spec left (Z.of_nat (length w))); [lia |].
  destruct (Z.ltb_spec (Z.of_nat (length w + length rest)) (Z.of_nat (length w)));
    [lia |].
  cbn. unfold move. cbn. rewrite Nat2Z.id.
  rewrite take_app_length, drop_app_length. reflexivity.
Qed.

Lemma octets_roundtrip (short : MNG_PARSE_ERROR_e) (n : nat) :
  roundtrip (octets short n) (fun l => length l = n).
Proof.
  intros x c x' c' Hlen Hb Hrun. cbn beta in *. rewrite (octets_build _ _ _ _ Hb) in Hrun.
  destruct (m_left c <? Z.of_nat n); [discriminate |].
  rewrite resize_all_alt in Hrun by (symmetry; exact Hlen).
  injection Hrun as <- <-. split; [reflexivity |].
  exists x. split; [reflexivity |].
  intros x0 rest out left size Hleft. now apply octets_parse.
Qed.

(** *** Combining operations *)

Lemma roundtrip2_ret {A : Type} (g : A) (ok : A -> Prop) :
  (forall x, ok x -> g = x) ->
  roundtrip2 (fun _ => mret g) (fun _ => mret g) ok.
Proof.
  intros Hg x c x' c' Hok Hb Hrun. injection Hrun as <- <-.
  split; [now apply Hg |]. exists []. split; [now rewrite wrote_nil |].
  intros x0 rest out left size _. cbn. unfold mret, M_ret, reading, len. cbn.
  rewrite (Hg x Hok). do 3 f_equal; lia.
Qed.

Lemma roundtrip2_bind {A C : Type} (p : A -> M A) (okA : A -> Prop)
    (fb fp : C -> A) (qb qp : A -> C -> M C) (ok : C -> Prop) :
  roundtrip p okA ->
  (forall x, ok x -> okA (fb x)) ->
  (forall a, roundtrip2 (qb a) (qp a) (fun x => ok x /\ fb x = a)) ->
  roundtrip2 (fun x => p (fb x) ≫= fun a => qb a x)
             (fun x => p (fp x) ≫= fun a => qp a x) ok.
Proof.
  intros Hp Hf Hq x c x' c' Hok Hb Hrun.
  apply bind_inr in Hrun as (a & c1 & Hrun1 & Hrun2).
  destruct (Hp _ _ _ _ (Hf x Hok) Hb Hrun1) as (-> & w1 & -> & Hparse1).
  destruct (Hq (fb x) _ _ _ _ (conj Hok eq_refl) (wrote_build w1 c) Hrun2)
    as (-> & w2 & -> & Hparse2).
  split; [reflexivity |]. exists (w1 ++ w2). split; [apply wrote_app |].
  intros x0 rest out left size Hleft. rewrite len_app in Hleft.
  pose proof (len_nonneg w1). pose proof (len_nonneg w2).
  rewrite <- app_assoc.
  rewrite (bind_run _ _ _ _ _ (Hparse1 (fp x0) (w2 ++ rest) out left size ltac:(lia))).
  rewrite Hparse2 by lia. rewrite len_app. unfold reading. do 3 f_equal; lia.
Qed.

Lemma roundtrip_bind {A C : Type} (p : A -> M A) (okA : A -> Prop)
    (f : C -> A) (q : A -> C -> M C) (ok : C -> Prop) :
  roundtrip p okA ->
  (forall x, ok x -> okA (f x)) ->
  (forall a, roundtrip (q a) (fun x => ok x /\ f x = a)) ->
  roundtrip (fun x => p (f x) ≫= fun a => q a x) ok.
Proof. apply roundtrip2_bind. Qed.

Lemma roundtrip_mode {A : Type} (k : bool -> A -> M A) (ok : A -> Prop) :
  roundtrip2 (k true) (k false) ok ->
  roundtrip (fun x => is_build ≫= fun b => k b x) ok.
Proof.
  intros Hk x c x' c' Hok Hb Hrun.
  unfold mbind, M_bind, is_build in Hrun. rewrite Hb in Hrun.
  destruct (Hk _ _ _ _ Hok Hb Hrun) as (-> & w & -> & Hparse).
  split; [reflexivity |]. exists w. split; [reflexivity |].
  intros x0 rest out left size Hleft. apply Hparse. exact Hleft.
Qed.

Lemma roundtrip2_guard {A : Type} (cond : bool) (g : A) (e : MNG_PARSE_ERROR_e)
    (ok : A -> Prop) :
  (forall x, ok x -> g = x) ->
  roundtrip2 (fun _ => if cond then mret g else fail e)
             (fun _ => if cond then mret g else fail e) ok.
Proof.
  intros Hg. destruct cond.
  - now apply roundtrip2_ret.
  - intros x c x' c' _ _ Hrun. discriminate Hrun.
Qed.

Lemma roundtrip2_weaken {A : Type} (pb pp : A -> M A) (ok ok' : A -> Prop) :
  roundtrip2 pb pp ok -> (forall x, ok' x -> ok x) -> roundtrip2 pb pp ok'.
Proof. intros Hp Hok x c x' c' Hx. apply Hp. now apply Hok. Qed.

(** *** Primitive codec *)

Lemma proc_uint_roundtrip (n : nat) :
  roundtrip (proc_uint n) (fun x => 0 <= x < 256 ^ Z.of_nat n).
Proof.
  unfold proc_uint.
  apply (roundtrip_bind (octets _ n) (fun l => length l = n) (be_bytes n)).
  - apply octets_roundtrip.
  - intros x _. apply be_bytes_length.
  - intros l. apply roundtrip2_ret. intros x [Hx <-].
    now apply be_value_bytes_small.
Qed.

Lemma uint_pow256 (n : nat) (x : Z) :
  uint (8 * Z.of_nat n) x -> 0 <= x < 256 ^ Z.of_nat n.
Proof. unfold uint. now rewrite pow256. Qed.

Lemma proc_int_roundtrip (n : nat) :
  (0 < n)%nat -> roundtrip (proc_int n) (sint (8 * Z.of_nat n)).
Proof.
  intros Hn. unfold proc_int.
  apply (roundtrip_bind (proc_uint n) (fun x => 0 <= x < 256 ^ Z.of_nat n)
           (fun x => x mod 256 ^ Z.of_nat n)).
  - apply proc_uint_roundtrip.
  - intros x _. apply Z.mod_pos_bound. apply Z.pow_pos_nonneg; lia.
  - intros u. apply roundtrip2_ret. intros x [Hx <-].
    rewrite pow256. apply sign_extend_mod; [lia | exact Hx].
Qed.

(** What [proc_uint] does in either direction. *)
Lemma proc_uint_build (n : nat) (x : Z) (c : cursor) :
  m_build c = true ->
  proc_uint n x c =
    if m_left c <? Z.of_nat n then inl MNG_PARSE_ERROR_TOO_SMALL
    else inr (x mod 256 ^ Z.of_nat n, wrote (be_bytes n x) c).
Proof.
  intros Hb. unfold proc_uint, mbind, M_bind.
  rewrite (octets_build _ _ _ _ Hb).
  destruct (m_left c <? Z.of_nat n); [reflexivity |].
  rewrite resize_all_alt by (now rewrite be_bytes_length).
  cbn. now rewrite be_value_bytes.
Qed.

Lemma proc_uint_parse (n : nat) (x x0 : Z) (rest out : list Z) (left size : Z) :
  Z.of_nat n <= left ->
  proc_uint n x0 (reading (be_bytes n x ++ rest) out left size) =
    inr (x mod 256 ^ Z.of_nat n,
         reading rest out (left - Z.of_nat n) (size + Z.of_nat n)).
Proof.
  intros Hleft. unfold proc_uint, mbind, M_bind.
  rewrite (octets_parse _ n _ (be_bytes n x))
    by (rewrite ?be_bytes_len; auto using be_bytes_length).
  cbn. now rewrite be_value_bytes, be_bytes_len.
Qed.

Lemma proc48_u_roundtrip : roundtrip proc48_u (uint 64).
Proof.
  intros x c x' c' [Hlo _] Hb Hrun. unfold proc48_u in Hrun.
  rewrite Hb in Hrun. cbn in Hrun.
  destruct (m_left c <? 6) eqn:Hleft; [discriminate |].
  destruct (Z.ltb_spec UINT48_MAX x) as [| Hmax]; [discriminate |].
  unfold UINT48_MAX in Hmax.
  rewrite (proc_uint_build 6 x c Hb) in Hrun.
  change (Z.of_nat 6) with 6 in Hrun. rewrite Hleft in Hrun.
  rewrite Z.mod_small in Hrun by lia. injection Hrun as <- <-.
  split; [reflexivity |]. exists (be_bytes 6 x). split; [reflexivity |].
  intros x0 rest out left size Hroom. rewrite be_bytes_len in *.
  unfold proc48_u. cbn -[be_bytes proc_uint].
  destruct (Z.ltb_spec left 6); [lia |].
  rewrite proc_uint_parse by lia. rewrite Z.mod_small by lia. reflexivity.
Qed.

Lemma proc48_i_roundtrip : roundtrip proc48_i (sint 64).
Proof.
  intros x c x' c' _ Hb Hrun. unfold proc48_i in Hrun.
  rewrite Hb in Hrun. cbn in Hrun.
  destruct (m_left c <? 6) eqn:Hleft; [discriminate |].
  destruct (Z.ltb_spec x INT48_MIN) as [| Hmin]; [discriminate |].
  destruct (Z.ltb_spec INT48_MAX x) as [| Hmax]; [discriminate |].
  cbn in Hrun. unfold INT48_MIN, INT48_MAX in *.
  assert (sint (8 * Z.of_nat 6) x) as Hx by (unfold sint; cbn; lia).
  destruct (proc_int_roundtrip 6 ltac:(lia) _ _ _ _ Hx Hb Hrun)
    as (-> & w & -> & Hparse).
  split; [reflexivity |]. exists w. split; [reflexivity |].
  intros x0 rest out left size Hroom.
  assert (len w = 6) as Hw.
  { unfold proc_int, mbind, M_bind in Hrun.
    rewrite (proc_uint_build 6 _ c Hb) in Hrun.
    change (Z.of_nat 6) with 6 in Hrun.
    rewrite Hleft in Hrun. unfold mret, M_ret in Hrun.
    assert (m_size (wrote (be_bytes 6 (x mod 256 ^ 6)) c)
            = m_size (wrote w c)) as Hc by congruence.
    cbn [m_size wrote] in Hc. rewrite be_bytes_len in Hc. lia. }
  unfold proc48_i. cbn -[proc_int].
  destruct (Z.ltb_spec left 6); [lia |]. now apply Hparse.
Qed.

Lemma procLe_roundtrip : roundtrip procLe (uint 64).
Proof.
  unfold procLe.
  apply (roundtrip_bind (octets _ 8) (fun l => length l = 8%nat)
           (fun x => reverse (be_bytes 8 x))).
  - apply octets_roundtrip.
  - intros x _. now rewrite length_reverse, be_bytes_length.
  - intros l. apply roundtrip2_ret. intros x [Hx <-].
    rewrite reverse_involutive. apply be_value_bytes_small.
    now apply (uint_pow256 8).
Qed.

Lemma proc_octets_roundtrip (n : nat) :
  roundtrip (proc_octets n) (fun l => length l = n /\ octet_list l).
Proof.
  apply (roundtrip2_weaken _ _ (fun l => length l = n)).
  - apply octets_roundtrip.
  - now intros l [Hl _].
Qed.

Lemma proc_string_roundtrip (n : Z) :
  roundtrip (fun str => proc_string str n) (fun str => len str = n).
Proof.
  apply (roundtrip2_weaken _ _ (fun l => length l = Z.to_nat n)).
  - apply octets_roundtrip.
  - intros l <-. unfold len. lia.
Qed.

Lemma proc_enum_roundtrip (e : enum_e) (passthrough : bool) :
  roundtrip (proc_enum e passthrough) (uint (8 * Z.of_nat (enum_octets e))).
Proof.
  unfold proc_enum.
  apply (roundtrip_bind (proc_uint _) (fun x => 0 <= x < 256 ^ Z.of_nat (enum_octets e))
           (fun x => x)).
  - apply proc_uint_roundtrip.
  - intros x. apply uint_pow256.
  - intros a. apply roundtrip2_guard. now intros x [_ <-].
Qed.

Lemma proc_reserved_roundtrip : roundtrip (fun _ : unit => proc_reserved) (fun _ => True).
Proof.
  unfold proc_reserved.
  apply (roundtrip_bind (proc_uint 1) (fun x => 0 <= x < 256 ^ Z.of_nat 1)
           (fun _ => 0)).
  - apply proc_uint_roundtrip.
  - intros _ _. cbn. lia.
  - intros a. apply roundtrip2_ret. now intros [].
Qed.

(** *** Compound codec *)

Lemma uint_bytes (bits : Z) (n : nat) (x : Z) :
  bits = 8 * Z.of_nat n -> uint bits x -> 0 <= x < 256 ^ Z.of_nat n.
Proof. intros ->. apply uint_pow256. Qed.

Lemma proc_TimeInterval_roundtrip :
  roundtrip proc_TimeInterval (fun d => uint 64 (Interval.scaledNanoseconds d)).
Proof.
  unfold proc_TimeInterval.
  apply (roundtrip_bind (proc_uint 8) _ Interval.scaledNanoseconds
           _ _ (proc_uint_roundtrip 8)).
  - intros d. now apply uint_bytes.
  - intros a. apply roundtrip2_ret. now intros [x] [_ <-].
Qed.

Lemma proc_Timestamp_roundtrip : roundtrip proc_Timestamp legal_Timestamp.
Proof.
  unfold proc_Timestamp.
  apply (roundtrip_bind proc48_u _ secondsField _ _ proc48_u_roundtrip).
  { now intros d [Hs _]. }
  intros s.
  apply (roundtrip_bind (proc_uint 4) _ nanosecondsField
           _ _ (proc_uint_roundtrip 4)).
  { intros d [[_ Hn] _]. now apply (uint_bytes 32). }
  intros n. apply roundtrip2_ret. now intros [s' n'] [[_ <-] <-].
Qed.

Lemma proc_ClockIdentity_roundtrip :
  roundtrip proc_ClockIdentity legal_ClockIdentity.
Proof.
  unfold proc_ClockIdentity.
  apply (roundtrip_bind (proc_octets 8) _ v _ _ (proc_octets_roundtrip 8)).
  { now intros d. }
  intros a. apply roundtrip2_ret. now intros [x] [_ <-].
Qed.

Lemma proc_PortIdentity_roundtrip :
  roundtrip proc_PortIdentity legal_PortIdentity.
Proof.
  unfold proc_PortIdentity.
  apply (roundtrip_bind proc_ClockIdentity _ clockIdentity
           _ _ proc_ClockIdentity_roundtrip).
  { now intros d [Hc _]. }
  intros c.
  apply (roundtrip_bind (proc_uint 2) _ portNumber _ _ (proc_uint_roundtrip 2)).
  { intros d [[_ Hp] _]. now apply (uint_bytes 16). }
  intros p. apply roundtrip2_ret. now intros [c' p'] [[_ <-] <-].
Qed.

Lemma proc_PortAddress_roundtrip :
  roundtrip proc_PortAddress legal_PortAddress.
Proof.
  unfold proc_PortAddress.
  apply (roundtrip_bind (proc_uint 2) _ networkProtocol
           _ _ (proc_uint_roundtrip 2)).
  { intros d (Hp & _). now apply (uint_bytes 16). }
  intros p.
  apply (roundtrip_bind (proc_uint 2) _ addressLength
           _ _ (proc_uint_roundtrip 2)).
  { intros d [(_ & Hn & _) _]. now apply (uint_bytes 16). }
  intros n.
  apply (roundtrip_bind (fun str => proc_string str n) _ addressField
           _ _ (proc_string_roundtrip n)).
  { intros d [[(_ & _ & Hlen & _) _] Hn]. cbn. congruence. }
  intros a. apply roundtrip2_ret.
  now intros [p' n' a'] [[[_ <-] <-] <-].
Qed.

Lemma proc_ClockQuality_roundtrip :
  roundtrip proc_ClockQuality legal_ClockQuality.
Proof.
  unfold proc_ClockQuality.
  apply (roundtrip_bind (proc_uint 1) _ clockClass _ _ (proc_uint_roundtrip 1)).
  { intros d (Hc & _). now apply (uint_bytes 8). }
  intros c.
  apply (roundtrip_bind (proc_uint 1) _ clockAccuracy
           _ _ (proc_uint_roundtrip 1)).
  { intros d [(_ & Ha & _) _]. now apply (uint_bytes 8). }
  intros a.
  apply (roundtrip_bind (proc_uint 2) _ offsetScaledLogVariance
           _ _ (proc_uint_roundtrip 2)).
  { intros d [[(_ & _ & Ho) _] _]. now apply (uint_bytes 16). }
  intros o. apply roundtrip2_ret.
  now intros [c' a' o'] [[[_ <-] <-] <-].
Qed.

Lemma proc_PTPText_roundtrip : roundtrip proc_PTPText legal_PTPText.
Proof.
  unfold proc_PTPText. apply roundtrip_mode.
  apply (roundtrip2_bind (proc_uint 1) _ (fun d => len (textField d)) lengthField
           _ _ _ (proc_uint_roundtrip 1)).
  { intros d (Hn & Hlen & _). rewrite <- Hlen. now apply (uint_bytes 8). }
  intros n.
  apply (roundtrip_bind (fun str => proc_string str n) _ textField
           _ _ (proc_string_roundtrip n)).
  { now intros d [_ Hn]. }
  intros t. apply roundtrip2_ret.
  intros [n' t'] [[(_ & Hlen & _) Hn] Ht]. cbn in *. congruence.
Qed.

Lemma proc_AcceptableMaster_roundtrip :
  roundtrip proc_AcceptableMaster legal_AcceptableMaster.
Proof.
  unfold proc_AcceptableMaster.
  apply (roundtrip_bind proc_PortIdentity _ acceptablePortIdentity
           _ _ proc_PortIdentity_roundtrip).
  { now intros d [Hp _]. }
  intros p.
  apply (roundtrip_bind (proc_uint 1) _ alternatePriority1
           _ _ (proc_uint_roundtrip 1)).
  { intros d [[_ Ha] _]. now apply (uint_bytes 8). }
  intros a. apply roundtrip2_ret. now intros [p' a'] [[_ <-] <-].
Qed.

Lemma roundtrip_counted {A : Type} (p : A -> M A) (ok : A -> Prop) (l : Z)
    (e : MNG_PARSE_ERROR_e) :
  roundtrip p ok ->
  roundtrip (fun x => consumed ≫= fun from => p x ≫= fun r =>
             consumed ≫= fun to =>
             if to - from =? l then mret r else fail e) ok.
Proof.
  intros Hp x c x' c' Hok Hb Hrun.
  unfold mbind at 1, M_bind at 1, consumed at 1 in Hrun.
  apply bind_inr in Hrun as (r & c1 & Hrun1 & Hrun2).
  destruct (Hp _ _ _ _ Hok Hb Hrun1) as (-> & w & -> & Hparse).
  unfold mbind, M_bind, consumed in Hrun2. cbn in Hrun2.
  replace (m_size c + len w - m_size c) with (len w) in Hrun2 by lia.
  destruct (len w =? l) eqn:Hl; [| discriminate].
  injection Hrun2 as <- <-. split; [reflexivity |].
  exists w. split; [reflexivity |].
  intros x0 rest out left size Hleft.
  unfold mbind at 1, M_bind at 1, consumed at 1.
  rewrite (bind_run _ _ _ _ _ (Hparse x0 rest out left size Hleft)).
  unfold mbind, M_bind, consumed. cbn.
  replace (size + len w - size) with (len w) by lia.
  now rewrite Hl.
Qed.

Lemma FaultRecord_fields_roundtrip (l : Z) :
  roundtrip (FaultRecord_fields l)
            (fun d => legal_FaultRecord d /\ faultRecordLength d = l).
Proof.
  unfold FaultRecord_fields.
  apply (roundtrip_bind proc_Timestamp _ faultTime _ _ proc_Timestamp_roundtrip).
  { now intros d [(_ & _ & Ht & _) _]. }
  intros t.
  apply (roundtrip_bind (proc_uint 1) _ severityCode
           _ _ (proc_uint_roundtrip 1)).
  { intros d [[(_ & _ & _ & Hs & _) _] _]. now apply (uint_bytes 8). }
  intros s.
  apply (roundtrip_bind proc_PTPText _ faultName _ _ proc_PTPText_roundtrip).
  { now intros d [[[(_ & _ & _ & _ & Hn & _) _] _] _]. }
  intros n.
  apply (roundtrip_bind proc_PTPText _ faultValue _ _ proc_PTPText_roundtrip).
  { now intros d [[[[(_ & _ & _ & _ & _ & Hx & _) _] _] _] _]. }
  intros x.
  apply (roundtrip_bind proc_PTPText _ faultDescription
           _ _ proc_PTPText_roundtrip).
  { now intros d [[[[[(_ & _ & _ & _ & _ & _ & Hy) _] _] _] _] _]. }
  intros y. apply roundtrip2_ret.
  now intros [l' t' s' n' x' y'] [[[[[[_ <-] <-] <-] <-] <-] <-].
Qed.

Lemma proc_FaultRecord_roundtrip : roundtrip proc_FaultRecord legal_FaultRecord.
Proof.
  unfold proc_FaultRecord. apply roundtrip_mode.
  apply (roundtrip2_bind (proc_uint 2) _ (fun d => FaultRecord_l d - 2)
           faultRecordLength _ _ _ (proc_uint_roundtrip 2)).
  { intros d (Hl & Heq & _). rewrite <- Heq. now apply (uint_bytes 16). }
  intros l. apply roundtrip_counted.
  apply (roundtrip2_weaken _ _ _ _ (FaultRecord_fields_roundtrip l)).
  intros d [Hd Hl]. split; [exact Hd |].
  destruct Hd as (_ & Heq & _). congruence.
Qed.

(** *** Field lists *)

Lemma for_each_roundtrip {A : Type} (p : A -> M A) (ok : A -> Prop) :
  roundtrip p ok ->
  forall (l : list A) (c : cursor) (l' : list A) (c' : cursor),
    Forall ok l -> m_build c = true -> for_each p l c = inr (l', c') ->
    l' = l /\
    exists w : list Z,
      c' = wrote w c /\
      forall (l0 : list A) (rest out : list Z) (left size : Z),
        length l0 = length l -> len w <= left ->
        for_each p l0 (reading (w ++ rest) out left size) =
          inr (l, reading rest out (left - len w) (size + len w)).
Proof.
  intros Hp l. induction l as [| x l IH]; intros c l' c' Hok Hb Hrun.
  - injection Hrun as <- <-. split; [reflexivity |]. exists [].
    split; [now rewrite wrote_nil |].
    intros [| y l0] rest out left size Hlen _; [| discriminate].
    cbn. unfold mret, M_ret, reading, len. cbn. do 3 f_equal; lia.
  - cbn [for_each] in Hrun. apply Forall_cons in Hok as [Hx Hl].
    apply bind_inr in Hrun as (y & c1 & Hrun1 & Hrun2).
    destruct (Hp _ _ _ _ Hx Hb Hrun1) as (-> & w1 & -> & Hparse1).
    apply bind_inr in Hrun2 as (r & c2 & Hrun2 & Hrun3).
    destruct (IH _ _ _ Hl (wrote_build w1 c) Hrun2) as (-> & w2 & -> & Hparse2).
    injection Hrun3 as <- <-. split; [reflexivity |].
    exists (w1 ++ w2). split; [apply wrote_app |].
    intros [| y l0] rest out left size Hlen Hleft; [discriminate |].
    rewrite len_app in *. pose proof (len_nonneg w1). pose proof (len_nonneg w2).
    cbn [for_each]. rewrite <- app_assoc.
    rewrite (bind_run _ _ _ _ _ (Hparse1 y (w2 ++ rest) out left size ltac:(lia))).
    assert (length l0 = length l) as Hlen' by (cbn in Hlen; lia).
    rewrite (bind_run _ _ _ _ _
               (Hparse2 l0 rest out (left - len w1) (size + len w1) Hlen'
                  ltac:(lia))).
    unfold mret, M_ret, reading. do 3 f_equal; lia.
Qed.

Lemma proc_array_roundtrip (prefix : nat) (t : field) :
  roundtrip (proc_field t) (legal t) ->
  roundtrip (proc_field (F_array prefix t)) (legal (F_array prefix t)).
Proof.
  intros IH x c x' c' [Hcount Hall] Hb Hrun. cbn [proc_field] in Hrun.
  unfold mbind at 1, M_bind at 1, is_build in Hrun. rewrite Hb in Hrun.
  apply bind_inr in Hrun as (n & c1 & Hrun1 & Hrun2).
  destruct (proc_uint_roundtrip prefix _ _ _ _ (uint_pow256 _ _ Hcount) Hb Hrun1)
    as (-> & w1 & -> & Hparse1).
  destruct (for_each_roundtrip _ _ IH _ _ _ _ Hall (wrote_build w1 c) Hrun2)
    as (-> & w2 & -> & Hparse2).
  split; [reflexivity |]. exists (w1 ++ w2). split; [apply wrote_app |].
  intros x0 rest out left size Hleft. rewrite len_app in *.
  pose proof (len_nonneg w1). pose proof (len_nonneg w2).
  cbn [proc_field]. unfold mbind at 1, M_bind at 1, is_build. cbn [reading m_build].
  rewrite <- app_assoc.
  rewrite (bind_run _ _ _ _ _ (Hparse1 0 (w2 ++ rest) out left size ltac:(lia))).
  rewrite Hparse2; [| rewrite length_replicate; lia | lia].
  unfold reading. do 3 f_equal; lia.
Qed.

Lemma proc_field_roundtrip (t : field) : roundtrip (proc_field t) (legal t).
Proof.
  induction t as [| | | | | | | | | | | n | | e passthrough
                  | | | | | | | | | | prefix t IH];
    cbn [proc_field legal].
  - apply (roundtrip2_weaken _ _ _ _ (proc_uint_roundtrip 1)).
    intros x. now apply uint_bytes.
  - apply (roundtrip2_weaken _ _ _ _ (proc_uint_roundtrip 2)).
    intros x. now apply uint_bytes.
  - apply (roundtrip2_weaken _ _ _ _ (proc_uint_roundtrip 4)).
    intros x. now apply uint_bytes.
  - apply proc48_u_roundtrip.
  - apply (roundtrip2_weaken _ _ _ _ (proc_uint_roundtrip 8)).
    intros x. now apply uint_bytes.
  - apply (proc_int_roundtrip 1). lia.
  - apply (proc_int_roundtrip 2). lia.
  - apply (proc_int_roundtrip 4). lia.
  - apply proc48_i_roundtrip.
  - apply (proc_int_roundtrip 8). lia.
  - apply procLe_roundtrip.
  - apply proc_octets_roundtrip.
  - apply proc_reserved_roundtrip.
  - apply proc_enum_roundtrip.
  - apply proc_TimeInterval_roundtrip.
  - apply proc_Timestamp_roundtrip.
  - apply proc_ClockIdentity_roundtrip.
  - apply proc_PortIdentity_roundtrip.
  - apply proc_PortAddress_roundtrip.
  - apply proc_ClockQuality_roundtrip.
  - apply proc_PTPText_roundtrip.
  - apply proc_FaultRecord_roundtrip.
  - apply proc_AcceptableMaster_roundtrip.
  - now apply proc_array_roundtrip.
Qed.

Lemma proc_fields_roundtrip (s : list field) :
  roundtrip (proc_fields s) (legals s).
Proof.
  induction s as [| t s IH]; cbn [proc_fields legals].
  - apply roundtrip2_ret. now intros [].
  - apply (roundtrip_bind (proc_field t) _ fst _ _ (proc_field_roundtrip t)).
    { now intros d [Hd _]. }
    intros x.
    apply (roundtrip_bind (proc_fields s) _ snd _ _ IH).
    { now intros d [[_ Hd] _]. }
    intros r. apply roundtrip2_ret. now intros [x' r'] [[_ <-] <-].
Qed.

(** *** The size counter *)

Lemma writes_eq {A : Type} (p : A -> M A) (n n' : Z) :
  writes p n -> n = n' -> writes p n'.
Proof. now intros Hp <-. Qed.

Lemma writes_octets (short : MNG_PARSE_ERROR_e) (n : nat) :
  writes (octets short n) (Z.of_nat n).
Proof.
  intros x c x' c' Hb Hrun. rewrite (octets_build _ _ _ _ Hb) in Hrun.
  destruct (m_left c <? Z.of_nat n); [discriminate |].
  injection Hrun as _ <-. cbn. unfold len. now rewrite length_resize.
Qed.

Lemma writes_ret {A : Type} (g : A) : writes (fun _ : A => mret g) 0.
Proof.
  intros x c x' c' Hb Hrun. injection Hrun as _ <-. split; [exact Hb | lia].
Qed.

Lemma writes_bind {A C : Type} (p : A -> M A) (f : C -> A) (q : A -> C -> M C)
    (n1 n2 : Z) :
  writes p n1 -> (forall a, writes (q a) n2) ->
  writes (fun x => p (f x) ≫= fun a => q a x) (n1 + n2).
Proof.
  intros Hp Hq x c x' c' Hb Hrun.
  apply bind_inr in Hrun as (a & c1 & Hrun1 & Hrun2).
  destruct (Hp _ _ _ _ Hb Hrun1) as [Hb1 Hsize1].
  destruct (Hq a _ _ _ _ Hb1 Hrun2) as [Hb2 Hsize2]. split; [exact Hb2 | lia].
Qed.

Lemma writes_uint (n : nat) : writes (proc_uint n) (Z.of_nat n).
Proof.
  unfold proc_uint.
  apply (writes_eq _ (Z.of_nat n + 0)); [| lia].
  apply (writes_bind (octets _ n) (be_bytes n)); [apply writes_octets |].
  intros l. apply writes_ret.
Qed.

Lemma writes_reserved : writes (fun _ : unit => proc_reserved) 1.
Proof.
  unfold proc_reserved.
  apply (writes_bind (proc_uint 1) (fun _ => 0) _ 1 0); [apply (writes_uint 1) |].
  intros a. apply writes_ret.
Qed.

Lemma writes_ClockIdentity : writes proc_ClockIdentity 8.
Proof.
  unfold proc_ClockIdentity.
  apply (writes_bind (proc_octets 8) v _ 8 0); [apply (writes_octets _ 8) |].
  intros a. apply writes_ret.
Qed.

Lemma writes_PortIdentity : writes proc_PortIdentity 10.
Proof.
  unfold proc_PortIdentity.
  apply (writes_bind proc_ClockIdentity clockIdentity _ 8 2 writes_ClockIdentity).
  intros c.
  apply (writes_bind (proc_uint 2) portNumber _ 2 0); [apply (writes_uint 2) |].
  intros a. apply writes_ret.
Qed.

Lemma writes_fields_nil : writes (proc_fields []) 0.
Proof. apply writes_ret. Qed.

Lemma writes_fields_cons (t : field) (s : list field) (n1 n2 : Z) :
  writes (proc_field t) n1 -> writes (proc_fields s) n2 ->
  writes (proc_fields (t :: s)) (n1 + n2).
Proof.
  intros Ht Hs. cbn [proc_fields].
  apply (writes_bind (proc_field t) fst _ n1 n2 Ht). intros x.
  apply (writes_eq _ (n2 + 0)); [| lia].
  apply (writes_bind (proc_fields s) snd _ n2 0 Hs). intros r. apply writes_ret.
Qed.

(** *** Errors *)

Lemma reports_ret {A : Type} (a : A) : reports (mret a).
Proof. intros c. discriminate. Qed.

Lemma reports_fail {A : Type} (e : MNG_PARSE_ERROR_e) :
  e <> MNG_PARSE_ERROR_OK -> reports (@fail A e).
Proof. intros He c. unfold fail. congruence. Qed.

Lemma reports_bind {A B : Type} (m : M A) (k : A -> M B) :
  reports m -> (forall a, reports (k a)) -> reports (m ≫= k).
Proof.
  intros Hm Hk c. unfold mbind, M_bind.
  destruct (m c) as [e | [a c1]] eqn:Hrun; [| apply Hk].
  intros [= ->]. now apply Hm in Hrun.
Qed.

Lemma reports_is_build : reports is_build.
Proof. intros c. discriminate. Qed.

Lemma reports_consumed : reports consumed.
Proof. intros c. discriminate. Qed.

Lemma reports_octets (short : MNG_PARSE_ERROR_e) (n : nat) (val : list Z) :
  short <> MNG_PARSE_ERROR_OK -> reports (octets short n val).
Proof.
  intros Hshort c. unfold octets.
  repeat match goal with |- context [if ?b then _ else _] => destruct b end;
    congruence.
Qed.

Lemma reports_if {A : Type} (b : bool) (m1 m2 : M A) :
  reports m1 -> reports m2 -> reports (if b then m1 else m2).
Proof. now destruct b. Qed.

Create HintDb reports discriminated.

#[local] Hint Resolve reports_ret reports_is_build reports_consumed : reports.
#[local] Hint Extern 1 (reports (fail _)) =>
  apply reports_fail; discriminate : reports.
#[local] Hint Extern 1 (reports (octets _ _ _)) =>
  apply reports_octets; discriminate : reports.
#[local] Hint Extern 2 (reports (_ ≫= _)) =>
  apply reports_bind; [| intros ?] : reports.
#[local] Hint Extern 2 (reports (if _ then _ else _)) =>
  apply reports_if : reports.

Lemma reports_uint (n : nat) (x : Z) : reports (proc_uint n x).
Proof. unfold proc_uint. auto with reports. Qed.

#[local] Hint Resolve reports_uint : reports.

Lemma reports_int (n : nat) (x : Z) : reports (proc_int n x).
Proof. unfold proc_int. auto with reports. Qed.

Lemma reports_48u (x : Z) : reports (proc48_u x).
Proof.
  intros c. unfold proc48_u.
  repeat match goal with |- context [if ?b then _ else _] => destruct b end;
    try congruence.
  apply reports_uint.
Qed.

Lemma reports_48i (x : Z) : reports (proc48_i x).
Proof.
  intros c. unfold proc48_i.
  repeat match goal with |- context [if ?b then _ else _] => destruct b end;
    try congruence.
  apply reports_int.
Qed.

Lemma reports_Le (x : Z) : reports (procLe x).
Proof. unfold procLe. auto with reports. Qed.

Lemma reports_string (str : list Z) (n : Z) : reports (proc_string str n).
Proof. unfold proc_string. auto with reports. Qed.

Lemma reports_enum (e : enum_e) (passthrough : bool) (x : Z) :
  reports (proc_enum e passthrough x).
Proof. unfold proc_enum. auto with reports. Qed.

Lemma reports_reserved : reports proc_reserved.
Proof. unfold proc_reserved. auto with reports. Qed.

#[local] Hint Resolve reports_int reports_48u reports_48i reports_Le
  reports_string reports_enum reports_reserved : reports.

Lemma reports_Timestamp (d : Timestamp_t) : reports (proc_Timestamp d).
Proof. unfold proc_Timestamp. auto with reports. Qed.

Lemma reports_ClockIdentity (d : ClockIdentity_t) : reports (proc_ClockIdentity d).
Proof. unfold proc_ClockIdentity, proc_octets. auto with reports. Qed.

#[local] Hint Resolve reports_Timestamp reports_ClockIdentity : reports.

Lemma reports_PortIdentity (d : PortIdentity_t) : reports (proc_PortIdentity d).
Proof. unfold proc_PortIdentity. auto with reports. Qed.

Lemma reports_PTPText (d : PTPText_t) : reports (proc_PTPText d).
Proof. unfold proc_PTPText. auto with reports. Qed.

#[local] Hint Resolve reports_PortIdentity reports_PTPText : reports.

Lemma reports_FaultRecord (d : FaultRecord_t) : reports (proc_FaultRecord d).
Proof. unfold proc_FaultRecord, FaultRecord_fields. auto 12 with reports. Qed.

Lemma reports_for_each {A : Type} (p : A -> M A) (l : list A) :
  (forall x, reports (p x)) -> reports (for_each p l).
Proof.
  intros Hp. induction l as [| x l IH]; cbn [for_each]; auto with reports.
Qed.

Lemma proc_field_reports (t : field) (x : tval t) : reports (proc_field t x).
Proof.
  induction t; cbn [proc_field];
    try (unfold proc_TimeInterval, proc_PortAddress, proc_ClockQuality,
           proc_AcceptableMaster, proc_octets; auto with reports).
  - apply reports_FaultRecord.
  - apply reports_bind; [apply reports_is_build | intros b].
    apply reports_bind; [apply reports_uint | intros n].
    apply reports_for_each. intros y. apply IHt.
Qed.

Lemma proc_fields_reports (s : list field) (d : hval s) (c : cursor) :
  proc_fields s d c <> inl MNG_PARSE_ERROR_OK.
Proof.
  revert d c. induction s as [| t s IH]; intros d c; cbn [proc_fields].
  - discriminate.
  - apply reports_bind; [apply proc_field_reports | intros x].
    apply reports_bind; [exact (IH d.2) | intros r]. apply reports_ret.
Qed.

(** *** 48-bit fields *)

Lemma wrote_inj (w w' : list Z) (c : cursor) : wrote w c = wrote w' c -> w = w'.
Proof.
  intros Heq. apply (f_equal m_out) in Heq. cbn in Heq.
  now apply app_inv_head in Heq.
Qed.

Lemma proc48_u_build (x : Z) (c : cursor) :
  m_build c = true -> 6 <= m_left c -> 0 <= x <= UINT48_MAX ->
  proc48_u x c = inr (x, wrote (be_bytes 6 x) c).
Proof.
  intros Hb Hleft Hx. unfold proc48_u. rewrite Hb.
  destruct (Z.ltb_spec (m_left c) 6); [lia |].
  destruct (Z.ltb_spec UINT48_MAX x); [lia |]. cbn [andb].
  rewrite (proc_uint_build 6 x c Hb). change (Z.of_nat 6) with 6.
  destruct (Z.ltb_spec (m_left c) 6); [lia |].
  unfold UINT48_MAX in Hx. rewrite Z.mod_small by lia. reflexivity.
Qed.

Lemma proc48_u_reject (x : Z) (c : cursor) :
  m_build c = true -> 6 <= m_left c -> UINT48_MAX < x ->
  proc48_u x c = inl MNG_PARSE_ERROR_VAL.
Proof.
  intros Hb Hleft Hx. unfold proc48_u. rewrite Hb.
  destruct (Z.ltb_spec (m_left c) 6); [lia |].
  destruct (Z.ltb_spec UINT48_MAX x); [reflexivity | lia].
Qed.

Lemma proc48_i_reject (x : Z) (c : cursor) :
  m_build c = true -> 6 <= m_left c -> x < INT48_MIN \/ INT48_MAX < x ->
  proc48_i x c = inl MNG_PARSE_ERROR_VAL.
Proof.
  intros Hb Hleft Hx. unfold proc48_i. rewrite Hb.
  destruct (Z.ltb_spec (m_left c) 6); [lia |].
  destruct (Z.ltb_spec x INT48_MIN); [reflexivity |].
  destruct (Z.ltb_spec INT48_MAX x); [reflexivity | lia].
Qed.

(** C8: with room for the field, a Timestamp whose [secondsField] is at
    most 2^48 - 1 builds into 10 octets from which a parse recovers it; a
    [secondsField] of 2^48 or more is rejected on build with VAL, and so
    is a signed 48-bit value outside [INT48_MIN, INT48_MAX]. *)
Theorem timestamp_48bit_range (c : cursor) (seconds nanoseconds : Z) :
  m_build c = true -> 10 <= m_left c ->
  0 <= seconds -> uint 32 nanoseconds ->
  let d := {| secondsField := seconds; nanosecondsField := nanoseconds |} in
  (seconds <= 2 ^ 48 - 1 ->
   exists w : list Z,
     proc_Timestamp d c = inr (d, wrote w c) /\ len w = 10 /\
     forall (d0 : Timestamp_t) (rest out : list Z) (left size : Z),
       10 <= left ->
       proc_Timestamp d0 (reading (w ++ rest) out left size) =
         inr (d, reading rest out (left - 10) (size + 10))) /\
  (2 ^ 48 <= seconds -> proc_Timestamp d c = inl MNG_PARSE_ERROR_VAL) /\
  (forall x : Z, x < INT48_MIN \/ INT48_MAX < x ->
     proc48_i x c = inl MNG_PARSE_ERROR_VAL).
Proof.
  intros Hb Hleft Hs Hn d. split; [| split].
  - intros Hmax.
    assert (proc_Timestamp d c =
            inr (d, wrote (be_bytes 6 seconds ++ be_bytes 4 nanoseconds) c))
      as Hrun.
    { unfold proc_Timestamp.
      rewrite (bind_run _ _ _ _ _
                 (proc48_u_build seconds c Hb ltac:(lia)
                    ltac:(unfold UINT48_MAX; lia))).
      unfold mbind, M_bind.
      rewrite (proc_uint_build 4 nanoseconds _ (wrote_build _ c)).
      cbn [m_left wrote]. rewrite be_bytes_len. change (Z.of_nat 4) with 4.
      destruct (Z.ltb_spec (m_left c - Z.of_nat 6) 4); [lia |].
      rewrite wrote_app. rewrite Z.mod_small by (apply (uint_bytes 32 4); auto).
      reflexivity. }
    exists (be_bytes 6 seconds ++ be_bytes 4 nanoseconds).
    split; [exact Hrun |]. split.
    { rewrite len_app, !be_bytes_len. reflexivity. }
    assert (legal_Timestamp d) as Hd.
    { split; [| exact Hn]. cbn. unfold uint. lia. }
    destruct (proc_Timestamp_roundtrip _ _ _ _ Hd Hb Hrun) as (_ & w & Hw & Hparse).
    apply wrote_inj in Hw as <-.
    intros d0 rest out left size Hroom.
    rewrite Hparse; rewrite len_app, !be_bytes_len; [reflexivity | lia].
  - intros Hmin. unfold proc_Timestamp, mbind, M_bind. subst d.
    cbn [secondsField].
    rewrite (proc48_u_reject seconds c Hb); [reflexivity | lia |].
    unfold UINT48_MAX. lia.
  - intros x Hx. apply proc48_i_reject; [exact Hb | lia | exact Hx].
Qed.

(** *** Parameters *)

Section Parameters.

Context `{Setup}.

(** C6: [updateParams] succeeds whenever neither [domainNumber] nor
    [boundaryHops] exceeds 255, and the runtime parameters are then the
    ones given. *)
Theorem updateParams_succeeds (prms : msgParams) (m : message) :
  domainNumber prms <= 255 -> boundaryHops prms <= 255 ->
  (updateParams prms m).1 = true /\
  getParams (updateParams prms m).2 = prms.
Proof.
  intros Hd Hb. unfold updateParams.
  destruct (Z.ltb_spec 255 (domainNumber prms)); [lia |].
  destruct (Z.ltb_spec 255 (boundaryHops prms)); [lia |].
  split; reflexivity.
Qed.

Lemma updateParams_fails (prms : msgParams) (m : message) :
  255 < domainNumber prms \/ 255 < boundaryHops prms ->
  updateParams prms m = (false, m).
Proof.
  intros Hbig. unfold updateParams.
  destruct (Z.ltb_spec 255 (domainNumber prms)); [reflexivity |].
  destruct (Z.ltb_spec 255 (boundaryHops prms)); [reflexivity | lia].
Qed.

(** Parameters that fit the [uint8_t] members of [msgParams] are always
    taken. *)
Lemma updateParams_uint8 (prms : msgParams) (m : message) :
  uint 8 (domainNumber prms) -> uint 8 (boundaryHops prms) ->
  (updateParams prms m).1 = true.
Proof.
  intros [_ Hd] [_ Hb]. unfold updateParams.
  destruct (Z.ltb_spec 255 (domainNumber prms)); [cbn in *; lia |].
  destruct (Z.ltb_spec 255 (boundaryHops prms)); [cbn in *; lia |].
  reflexivity.
Qed.

End Parameters.

End CodecFacts.

(** ** Runs of the sample registry *)

Section DemoRuns.

Import Msg Msg.Demo.

Lemma timestamp_48bit_range_witness :
  let c := mkCur true [] [] 10 0 in
  let top := {| secondsField := 2 ^ 48 - 1; nanosecondsField := 5 |} in
  (exists w : list Z,
     proc_Timestamp top c = inr (top, wrote w c) /\ len w = 10 /\
     forall (d0 : Timestamp_t) (rest out : list Z) (left size : Z),
       10 <= left ->
       proc_Timestamp d0 (reading (w ++ rest) out left size) =
         inr (top, reading rest out (left - 10) (size + 10))) /\
  proc_Timestamp {| secondsField := 2 ^ 48; nanosecondsField := 5 |} c =
    inl MNG_PARSE_ERROR_VAL /\
  proc48_i (INT48_MAX + 1) c = inl MNG_PARSE_ERROR_VAL /\
  proc48_i (INT48_MIN - 1) c = inl MNG_PARSE_ERROR_VAL.
Proof.
  intros c top.
  assert (uint 32 5) as H5 by (unfold uint; lia).
  destruct (timestamp_48bit_range c (2 ^ 48 - 1) 5 eq_refl ltac:(cbn; lia)
              ltac:(lia) H5) as (Htop & _ & Hsigned).
  destruct (timestamp_48bit_range c (2 ^ 48) 5 eq_refl ltac:(cbn; lia)
              ltac:(lia) H5) as (_ & Hover & _).
  split; [apply Htop; lia |]. split; [apply Hover; lia |].
  split; apply Hsigned; unfold INT48_MIN, INT48_MAX; lia.
Defined.

Lemma updateParams_succeeds_witness :
  (@updateParams setup params fresh).1 = true /\
  @getParams setup (@updateParams setup params fresh).2 = params.
Proof.
  apply (@updateParams_succeeds setup params fresh); cbn; lia.
Defined.

End DemoRuns.

(** * Part III: further properties of the dispatchers, the builders and
    the inline members of msg.h *)

(** ** msgCall.cpp: callHadler *)

Section DispatcherCases.

Import Dispatch.

Context {Message Payload : Type}.
Context `{IdsTable} `{MessageApi Message Payload} `{DispatcherClass}.

Lemma check_inherit_overridden (n : mng_vals_e) :
  overrides_h n = true -> check_inherit n = false.
Proof. intros Hover. unfold check_inherit. rewrite Hover. apply andb_false_r. Qed.

Lemma dynamic_cast_Some (n : mng_vals_e) (t : BaseMngTlv Payload) (d : Payload) :
  dynamic_cast n t = Some d <-> tlv_type t = n /\ tlv_fields t = d.
Proof.
  unfold dynamic_cast. destruct (Z.eqb_spec (tlv_type t) n) as [Heq | Hne].
  - split; [intros [= <-]; auto | intros [_ <-]; reflexivity].
  - split; [discriminate | intros [Heq _]; contradiction].
Qed.

Lemma dynamic_cast_None (n : mng_vals_e) (t : BaseMngTlv Payload) :
  dynamic_cast n t = None <-> tlv_type t <> n.
Proof.
  unfold dynamic_cast. destruct (Z.eqb_spec (tlv_type t) n) as [Heq | Hne].
  - split; [discriminate | contradiction].
  - split; auto.
Qed.

(** X1: a message that carries a TLV of its ID's type, whose ID has a
    dispatcher case and whose handler the user overrides, makes
    [callHadler] invoke that handler once, with the message, the TLV cast
    to [n##_t] and the name [#n]; with or without [__GNUC__]. *)
Theorem callHadler_overridden (msg : Message) (t : BaseMngTlv Payload) :
  getData msg = Some t ->
  tlv_type t = getTlvId msg ->
  ptpmCaseUF (getTlvId msg) = true ->
  overrides_h (getTlvId msg) = true ->
  callHadler msg =
    Some [call_h (getTlvId msg) true msg (tlv_fields t)
            (id_str (getTlvId msg))].
Proof.
  intros Hdata Hty Hcase Hover. unfold callHadler, callHadler3.
  rewrite Hdata, Hcase, (check_inherit_overridden _ Hover), Hover.
  unfold dynamic_cast. rewrite Hty, Z.eqb_refl. reflexivity.
Qed.

(** X2: [noTlv(msg)] is what the dispatch invokes exactly when it is
    handed no TLV or the ID has no dispatcher case (the [default] of the
    switch), whatever the user overrides. *)
Theorem callHadler3_noTlv_iff (msg : Message) (tlv_id : mng_vals_e)
    (tlv : option (BaseMngTlv Payload)) :
  callHadler3 msg tlv_id tlv = Some [call_noTlv msg] <->
  tlv = None \/ ptpmCaseUF tlv_id = false.
Proof.
  unfold callHadler3. split.
  - destruct tlv as [t|]; [| auto].
    destruct (ptpmCaseUF tlv_id); [| auto].
    destruct (check_inherit tlv_id); [discriminate |].
    destruct (dynamic_cast tlv_id t); discriminate.
  - intros [-> | Hcase]; [reflexivity |]. rewrite Hcase. now destruct tlv.
Qed.

(** X3: a dispatch that returns has invoked exactly one member function,
    and with the message it was given. *)
Theorem callHadler3_single_call (msg : Message) (tlv_id : mng_vals_e)
    (tlv : option (BaseMngTlv Payload)) (calls : list handler_call) :
  callHadler3 msg tlv_id tlv = Some calls ->
  exists c : handler_call, calls = [c] /\ call_msg c = msg.
Proof.
  unfold callHadler3. intros Hrun.
  destruct tlv as [t|]; [| injection Hrun as <-; eauto].
  destruct (ptpmCaseUF tlv_id); [| injection Hrun as <-; eauto].
  destruct (check_inherit tlv_id); [injection Hrun as <-; eauto |].
  destruct (dynamic_cast tlv_id t); [injection Hrun as <-; eauto | discriminate].
Qed.

(** X4: the dispatch dereferences a null pointer exactly when the ID has
    a dispatcher case, the handler is called ([check_inherit] does not
    return first) and the TLV handed over is not of the ID's type. *)
Theorem callHadler3_undefined_iff (msg : Message) (tlv_id : mng_vals_e)
    (tlv : option (BaseMngTlv Payload)) :
  callHadler3 msg tlv_id tlv = None <->
  exists t : BaseMngTlv Payload,
    tlv = Some t /\ ptpmCaseUF tlv_id = true /\
    check_inherit tlv_id = false /\ tlv_type t <> tlv_id.
Proof.
  unfold callHadler3. split.
  - destruct tlv as [t|]; [| discriminate].
    destruct (ptpmCaseUF tlv_id); [| discriminate].
    destruct (check_inherit tlv_id); [discriminate |].
    destruct (dynamic_cast tlv_id t) eqn:Hcast; [discriminate |].
    intros _. exists t. apply dynamic_cast_None in Hcast. auto.
  - intros (t & -> & -> & -> & Hty).
    apply dynamic_cast_None in Hty. now rewrite Hty.
Qed.

(** X5: a message whose decoded TLV, if any, is of the type of the
    message's ID is always dispatched: [callHadler(msg)] never
    dereferences a null cast. *)
Theorem callHadler_defined (msg : Message) :
  (forall t, getData msg = Some t -> tlv_type t = getTlvId msg) ->
  exists c : handler_call, callHadler msg = Some [c].
Proof.
  intros Hty. unfold callHadler, callHadler3.
  destruct (getData msg) as [t|]; [| eauto].
  destruct (ptpmCaseUF _); [| eauto].
  destruct (check_inherit _); [eauto |].
  unfold dynamic_cast. rewrite (Hty t eq_refl), Z.eqb_refl. eauto.
Qed.

(** X6: compiled with [__GNUC__], the dispatcher never invokes the
    implementation of a handler in [MessageDispatcher] itself, and it
    invokes [noTlvCallBack] only for an ID with a dispatcher case whose
    handler is not overridden. *)
Theorem callHadler3_gnuc_calls (msg : Message) (tlv_id : mng_vals_e)
    (tlv : option (BaseMngTlv Payload)) (calls : list handler_call)
    (c : handler_call) :
  gnuc = true ->
  callHadler3 msg tlv_id tlv = Some calls -> c ∈ calls ->
  match c with
  | call_noTlv _ => tlv = None \/ ptpmCaseUF tlv_id = false
  | call_noTlvCallBack _ idStr =>
      idStr = id_str tlv_id /\ ptpmCaseUF tlv_id = true /\
      overrides_h tlv_id = false /\ tlv <> None
  | call_h n over _ d idStr =>
      n = tlv_id /\ over = true /\ idStr = id_str tlv_id /\
      overrides_h tlv_id = true /\ ptpmCaseUF tlv_id = true /\
      tlv = Some (mkTlv tlv_id d)
  end.
Proof.
  intros Hgnuc Hrun Hin. unfold callHadler3, check_inherit in Hrun.
  rewrite Hgnuc in Hrun. cbn in Hrun.
  destruct tlv as [t|].
  2:{ injection Hrun as <-. apply list_elem_of_singleton in Hin as ->. auto. }
  destruct (ptpmCaseUF tlv_id) eqn:Hcase.
  2:{ injection Hrun as <-. apply list_elem_of_singleton in Hin as ->. auto. }
  destruct (overrides_h tlv_id) eqn:Hover; cbn in Hrun.
  - destruct (dynamic_cast tlv_id t) as [d|] eqn:Hcast; [| discriminate].
    injection Hrun as <-. apply list_elem_of_singleton in Hin as ->.
    apply dynamic_cast_Some in Hcast as [Hty Hd].
    destruct t as [ty f]. cbn in *. subst. auto 10.
  - injection Hrun as <-. apply list_elem_of_singleton in Hin as ->.
    repeat split; auto.
Qed.

End DispatcherCases.

(** ** msgCall.cpp: buildTlv and the free store *)

Section BuilderStore.

Import Ownership.

Context {Message Payload : Type}.
Context `{IdsTable} `{ProcTypes Payload} `{MessageApi Message Payload}.
Context `{BuilderClass Message Payload}.

Implicit Types (a : actionField_e) (n : mng_vals_e).
Implicit Types (s : @bstate Message Payload).

Lemma not_GET a : is_GET a = false -> a <> GET.
Proof. intros Hget ->. discriminate Hget. Qed.

Lemma holds_exactly_owns s : holds_exactly s -> owns s.
Proof. intros Hs old Hold. now apply Hs. Qed.

Lemma fresh_not_held s old :
  holds_exactly s -> m_tlv s = Some old -> old <> fresh (dom (store s)).
Proof.
  intros Hs Hold Heq. apply Hs in Hold as [v Hv].
  rewrite Heq in Hv.
  pose proof (is_fresh (dom (store s))) as Hfresh.
  apply not_elem_of_dom in Hfresh. congruence.
Qed.

Lemma call_setAction_fields a n tlv s :
  (call_setAction a n tlv s).1 = (setAction a n tlv (m_msg s)).1 /\
  m_msg (call_setAction a n tlv s).2 = (setAction a n tlv (m_msg s)).2 /\
  m_tlv (call_setAction a n tlv s).2 = m_tlv s /\
  store (call_setAction a n tlv s).2 = store s /\
  trace (call_setAction a n tlv s).2 = trace s ++ [ev_setAction a n tlv].
Proof.
  unfold call_setAction. destruct (setAction a n tlv (m_msg s)). cbn. auto.
Qed.

(** X7: [buildTlv] keeps the free store exact.  If the store holds the
    object of [m_tlv] and nothing else before, so it does after, in every
    branch: nothing leaks and [m_tlv] never dangles. *)
Theorem buildTlv_holds_exactly a n s :
  holds_exactly s -> holds_exactly (buildTlv a n s).2.
Proof.
  intros Hs. destruct (is_GET a || isEmpty n) eqn:Hshort.
  { unfold buildTlv. rewrite Hshort. intros l.
    destruct (call_setAction_fields a n None s) as (_ & _ & -> & -> & _).
    apply Hs. }
  apply orb_false_elim in Hshort as [Hget He]. apply not_GET in Hget.
  destruct (ptpmCaseUFB n) eqn:Hc.
  2:{ unfold buildTlv. rewrite (is_GET_false a Hget), He, Hc. exact Hs. }
  rewrite (buildTlv_case_unfold a n s Hget He Hc). cbn zeta.
  set (d := fresh (dom (store s))).
  assert (store s !! d = None) as Hd by apply fresh_loc_unused.
  destruct (n_b n (m_msg s) (default_fields n)) as [[] f1]; cbn [fst snd].
  - intros l.
    match goal with |- context [call_setAction a n (Some d) ?s1] =>
      destruct (call_setAction_fields a n (Some d) s1) as (_ & _ & -> & -> & _)
    end.
    unfold reset, free, emit. cbn.
    destruct (m_tlv s) as [old|] eqn:Hold; cbn.
    + assert (old <> d) as Hne by (apply fresh_not_held; assumption).
      destruct (decide (l = old)) as [-> | Hlo].
      * rewrite lookup_delete_eq. split; [intros [? [=]] | intros [= ->]].
        contradiction.
      * rewrite lookup_delete_ne by congruence.
        destruct (decide (l = d)) as [-> | Hld].
        -- rewrite lookup_insert_eq. split; eauto.
        -- rewrite lookup_insert_ne by congruence.
           rewrite (Hs l), Hold. split; intros [=]; congruence.
    + destruct (decide (l = d)) as [-> | Hld].
      * rewrite lookup_insert_eq. split; eauto.
      * rewrite lookup_insert_ne by congruence.
        rewrite (Hs l), Hold. split; intros [=]; congruence.
  - unfold free, emit. cbn. intros l.
    rewrite delete_insert_eq, (delete_id _ _ Hd). apply Hs.
Qed.

(** X8: a [true] from [buildTlv] means that [setAction] accepted the
    action and left the message of the builder; past the shortcut the
    pointer handed to [setAction] is the one [m_tlv] now holds, and the
    object behind it is alive and is what the callback made of a
    default-constructed [n##_t]. *)
Theorem buildTlv_true_sets_action a n s :
  owns s -> (buildTlv a n s).1 = true ->
  exists tlv : option loc,
    setAction a n tlv (m_msg s) = (true, m_msg (buildTlv a n s).2) /\
    match tlv with
    | None =>
        (a = GET \/ isEmpty n = true) /\ m_tlv (buildTlv a n s).2 = m_tlv s
    | Some d =>
        m_tlv (buildTlv a n s).2 = Some d /\
        exists f : Payload,
          n_b n (m_msg s) (default_fields n) = (true, f) /\
          store (buildTlv a n s).2 !! d = Some (mkTlv n f)
    end.
Proof.
  intros Hown Hres. destruct (is_GET a || isEmpty n) eqn:Hshort.
  { unfold buildTlv in *. rewrite Hshort in *. exists None.
    destruct (call_setAction_fields a n None s) as (Hr & Hm & Ht & _).
    rewrite Hr in Hres. rewrite Hm, Ht.
    destruct (setAction a n None (m_msg s)) as [r m']. cbn in *. subst r.
    split; [reflexivity |]. split; [| reflexivity].
    apply orb_true_iff in Hshort as [Hget | He]; [left | right; exact He].
    now apply is_GET_spec. }
  apply orb_false_elim in Hshort as [Hget He]. apply not_GET in Hget.
  destruct (ptpmCaseUFB n) eqn:Hc.
  2:{ unfold buildTlv in Hres. rewrite (is_GET_false a Hget), He, Hc in Hres.
      discriminate Hres. }
  rewrite (buildTlv_case_unfold a n s Hget He Hc) in *. cbn zeta in *.
  set (d := fresh (dom (store s))) in *.
  destruct (n_b n (m_msg s) (default_fields n)) as [[] f1]; cbn [fst snd] in *.
  2:{ discriminate Hres. }
  exists (Some d).
  match goal with |- context [call_setAction a n (Some d) ?s1] =>
    destruct (call_setAction_fields a n (Some d) s1) as (Hr & Hm & Ht & Hst & _)
  end.
  rewrite Hr in Hres. rewrite Hm, Ht, Hst. clear Hr Hm Ht Hst.
  assert (forall s1, m_msg (reset d s1) = m_msg s1) as Hmsg.
  { intros s1. unfold reset. now destruct (m_tlv s1). }
  rewrite Hmsg in *. cbn [m_msg] in *.
  destruct (setAction a n (Some d) (m_msg s)) as [r m']. cbn in Hres. subst r.
  split; [reflexivity |]. split; [reflexivity |].
  exists f1. split; [reflexivity |].
  unfold reset, free, emit. cbn.
  destruct (m_tlv s) as [old|] eqn:Hold; cbn.
  - rewrite lookup_delete_ne by (apply (owned_not_fresh s old Hown Hold)).
    apply lookup_insert_eq.
  - apply lookup_insert_eq.
Qed.

(** X9: when the callback succeeds and [setAction] then refuses, the
    builder has already taken the new value over: [buildTlv] returns
    [false], yet [m_tlv] holds the new object and the object held before
    has been deleted. *)
Theorem buildTlv_setAction_refuses a n s :
  owns s -> a <> GET -> isEmpty n = false -> ptpmCaseUFB n = true ->
  (n_b n (m_msg s) (default_fields n)).1 = true ->
  let d := fresh (dom (store s)) in
  (setAction a n (Some d) (m_msg s)).1 = false ->
  (buildTlv a n s).1 = false /\
  m_msg (buildTlv a n s).2 = (setAction a n (Some d) (m_msg s)).2 /\
  m_tlv (buildTlv a n s).2 = Some d /\
  is_Some (store (buildTlv a n s).2 !! d) /\
  forall old : loc,
    m_tlv s = Some old ->
    store (buildTlv a n s).2 !! old = None /\
    ev_delete old ∈ trace (buildTlv a n s).2.
Proof.
  intros Hown Ha He Hc Hcb d Hset.
  rewrite (buildTlv_case_unfold a n s Ha He Hc). cbn zeta. fold d.
  rewrite Hcb.
  match goal with |- context [call_setAction a n (Some d) ?s1] =>
    destruct (call_setAction_fields a n (Some d) s1) as (-> & -> & -> & -> & ->)
  end.
  assert (forall s1, m_msg (reset d s1) = m_msg s1) as Hmsg.
  { intros s1. unfold reset. now destruct (m_tlv s1). }
  rewrite Hmsg. cbn [m_msg].
  split; [exact Hset |]. split; [reflexivity |].
  unfold reset, free, emit. cbn.
  destruct (m_tlv s) as [old|] eqn:Hold; cbn.
  - assert (old <> d) as Hne by (apply (owned_not_fresh s old Hown Hold)).
    split; [reflexivity |]. split.
    + rewrite lookup_delete_ne by exact Hne. rewrite lookup_insert_eq. eauto.
    + intros ? [= <-]. split; [apply lookup_delete_eq |].
      rewrite !elem_of_app. left. right. apply list_elem_of_singleton. reflexivity.
  - split; [reflexivity |]. split; [rewrite lookup_insert_eq; eauto |].
    intros ? [=].
Qed.

End BuilderStore.

(** ** msgCall.i: the Python buildTlv *)

Section PythonBuilderStore.

Import Ownership.

Context {Message Payload : Type}.
Context `{IdsTable} `{ProcTypes Payload} `{MessageApi Message Payload}.
Context `{PyEnv Message Payload}.

Implicit Types (a : actionField_e) (n : mng_vals_e).
Implicit Types (s : @bstate Message Payload).

(** X10: the shortcut of the Python builder.  For [GET] or an empty ID
    [buildTlv] returns what [setAction(actionField, tlv_id)] returns; that
    call is its only effect, nothing is constructed and [m_tlv] is not
    bound. *)
Theorem py_buildTlv_get_or_empty a n s :
  a = GET \/ isEmpty n = true ->
  py_buildTlv a n s =
    ((setAction a n None (m_msg s)).1,
     mkB (setAction a n None (m_msg s)).2 (m_tlv s) (store s)
         (trace s ++ [ev_setAction a n None])).
Proof.
  intros Hshort. unfold py_buildTlv.
  assert (is_GET a || isEmpty n = true) as ->.
  { destruct Hshort as [-> | ->]; [reflexivity | apply orb_true_r]. }
  apply call_setAction_parts.
Qed.

(** X11: past the shortcut, when [globals()] has no class [n_t], or the
    builder class no callable [n_b], or the class yields [None], the
    Python [buildTlv] returns [False] and has done nothing: no object, no
    callback, no [setAction]. *)
Theorem py_buildTlv_not_found a n s :
  a <> GET -> isEmpty n = false ->
  py_globals !! (mng2str_c n +:+ "_t") = None \/
  py_globals !! (mng2str_c n +:+ "_t") = Some None \/
  py_class !! (mng2str_c n +:+ "_b") = None ->
  py_buildTlv a n s = (false, s).
Proof.
  intros Ha He Hmiss. unfold py_buildTlv.
  rewrite (is_GET_false a Ha), He. cbn.
  destruct Hmiss as [-> | [-> | ->]]; try reflexivity.
  - now destruct (py_class !! _).
  - now destruct (py_globals !! _) as [[]|].
Qed.

(** X12: a Python [buildTlv] that returns [False] leaves [m_tlv] bound
    as before and the objects as they were: what existed is untouched and
    the object made for the attempt has been finalized.  One that returns
    [True] past the shortcut has finalized the object bound before. *)
Theorem py_buildTlv_keeps a n s :
  ((py_buildTlv a n s).1 = false ->
   m_tlv (py_buildTlv a n s).2 = m_tlv s /\
   store (py_buildTlv a n s).2 = store s) /\
  ((py_buildTlv a n s).1 = true -> a <> GET -> isEmpty n = false ->
   forall old : loc,
     m_tlv s = Some old -> is_Some (store s !! old) ->
     store (py_buildTlv a n s).2 !! old = None /\
     ev_delete old ∈ trace (py_buildTlv a n s).2).
Proof.
  destruct (is_GET a || isEmpty n) eqn:Hshort.
  { unfold py_buildTlv. rewrite Hshort, call_setAction_parts. cbn.
    split; [auto |]. intros _ Ha He.
    rewrite (is_GET_false a Ha), He in Hshort. discriminate Hshort. }
  apply orb_false_elim in Hshort as [Hget He].
  assert (a <> GET) as Ha by (intros ->; discriminate Hget).
  rewrite (py_buildTlv_unfold a n s Ha He).
  destruct (py_lookup n) as [[[v|] cb]|];
    try (split; [auto | discriminate]).
  cbn zeta. set (d := fresh (dom (store s))).
  assert (store s !! d = None) as Hd by apply fresh_loc_unused.
  assert (forall w w' : BaseMngTlv Payload,
            delete d (<[d := w]> (store s)) = store s) as Hdrop.
  { intros w _. now rewrite delete_insert_eq, (delete_id _ _ Hd). }
  destruct (cb (m_msg s) (tlv_fields v)) as [[] f1]; cbn [fst snd].
  - rewrite call_setAction_parts. cbn [fst snd m_msg m_tlv store trace].
    destruct (setAction a n (Some d) (m_msg s)) as [[] m']; cbn [fst snd].
    + split; [discriminate |]. intros _ _ _ old Hold [w Hw].
      assert (old <> d) as Hne by (intros ->; congruence).
      unfold py_bind, free, emit. cbn [m_msg m_tlv store trace].
      rewrite Hold, bool_decide_eq_false_2 by exact Hne. cbn.
      split; [apply lookup_delete_eq |].
      rewrite !elem_of_app. right. apply list_elem_of_singleton. reflexivity.
    + split; [| discriminate]. intros _.
      unfold py_drop, free, emit. cbn. split; [reflexivity |].
      apply (Hdrop _ (mkTlv n f1)).
  - split; [| discriminate]. intros _.
    unfold py_drop, free, emit. cbn. split; [reflexivity |].
    apply (Hdrop _ (mkTlv n f1)).
Qed.

(** X13: a [True] from the Python [buildTlv] past the shortcut means that
    the class [n_t] was constructed, the callback [n_b] populated the
    object and answered true, [setAction] accepted the object, and
    [m_tlv] is bound to it. *)
Theorem py_buildTlv_true_binds a n s :
  a <> GET -> isEmpty n = false ->
  (py_buildTlv a n s).1 = true ->
  let d := fresh (dom (store s)) in
  exists (v : BaseMngTlv Payload) (cb : build_callback Message Payload),
    py_lookup n = Some (Some v, cb) /\
    (cb (m_msg s) (tlv_fields v)).1 = true /\
    setAction a n (Some d) (m_msg s) = (true, m_msg (py_buildTlv a n s).2) /\
    m_tlv (py_buildTlv a n s).2 = Some d /\
    store (py_buildTlv a n s).2 !! d =
      Some (mkTlv (tlv_type v) (cb (m_msg s) (tlv_fields v)).2).
Proof.
  intros Ha He Hres d.
  rewrite (py_buildTlv_unfold a n s Ha He) in *.
  destruct (py_lookup n) as [[[v|] cb]|]; try discriminate Hres.
  cbn zeta in *. fold d in Hres |- *.
  exists v, cb. split; [reflexivity |].
  destruct (cb (m_msg s) (tlv_fields v)) as [[] f1]; cbn [fst snd] in *;
    [| discriminate Hres].
  rewrite call_setAction_parts in *. cbn [fst snd m_msg m_tlv store trace] in *.
  destruct (setAction a n (Some d) (m_msg s)) as [[] m']; cbn [fst snd] in *;
    [| discriminate Hres].
  unfold py_bind, free, emit. cbn [m_msg m_tlv store trace].
  destruct (m_tlv s) as [old|]; [case_bool_decide as Hold |]; cbn;
    repeat split; try apply lookup_insert_eq.
  rewrite lookup_delete_ne by exact Hold. apply lookup_insert_eq.
Qed.

End PythonBuilderStore.

(** ** msgCall.i: the Python callHadler *)

Section PythonDispatcher.

Import PyCall.

Context {Message Payload : Type}.
Context `{MessageApi Message Payload} `{PyEnv Message Payload}.
Context `{PyDispatcher Payload}.

Implicit Types (m : Message) (n : mng_vals_e) (t : BaseMngTlv Payload).

(** The dispatch once the message, the ID and the TLV are settled. *)
Lemma py_callHadler_tlv m n t :
  py_callHadler (Some m) n (Some t) =
    match conv_globals !! ("conv_" +:+ mng2str_c n) with
    | Some conv =>
        if bool_decide (mng2str_c n +:+ "_h" ∈ class_callable) then
          match conv t with
          | Some data =>
              inr [py_h (mng2str_c n +:+ "_h") m data (mng2str_c n)]
          | None => inr (py_fallback m)
          end
        else inr (py_fallback m)
    | None => inr (py_fallback m)
    end.
Proof. reflexivity. Qed.

Lemma py_callHadler_none m n :
  py_callHadler (Some m) n None =
    match getData m with
    | Some t => py_callHadler (Some m) (getTlvId m) (Some t)
    | None => inr (py_fallback m)
    end.
Proof. unfold py_callHadler. now destruct (getData m). Qed.

Lemma py_fallback_calls m (c : py_call) :
  c ∈ py_fallback m -> c = py_noTlv m /\ "noTlv" ∈ class_callable.
Proof.
  unfold py_fallback. case_bool_decide as Hno.
  - intros ->%list_elem_of_singleton. auto.
  - intros Hin. inversion Hin.
Qed.

(** X14: the Python [callHadler] raises exactly when it is given no
    message, and what it raises is an [AttributeError]; a missing
    conversion, a missing handler or a TLV of another type raise
    nothing. *)
Theorem py_callHadler_raises_iff (msg : option Message) n
    (tlv : option (BaseMngTlv Payload)) :
  ((exists e, py_callHadler msg n tlv = inl e) <-> msg = None) /\
  (forall e, py_callHadler msg n tlv = inl e ->
             exists text, e = AttributeError text).
Proof.
  assert (forall m e, py_callHadler (Some m) n tlv <> inl e) as Hsome.
  { intros m e Hrun.
    assert (forall k t, py_callHadler (Some m) k (Some t) <> inl e) as Htlv.
    { intros k t. rewrite py_callHadler_tlv.
      destruct (conv_globals !! _) as [conv|]; [| discriminate].
      case_bool_decide; [| discriminate]. now destruct (conv t). }
    destruct tlv as [t|]; [exact (Htlv _ _ Hrun) |].
    rewrite py_callHadler_none in Hrun.
    destruct (getData m) as [t|]; [exact (Htlv _ _ Hrun) | discriminate]. }
  split; [split |].
  - intros [e Hrun]. destruct msg as [m|]; [| reflexivity].
    now apply Hsome in Hrun.
  - intros ->. eexists. reflexivity.
  - intros e Hrun. destruct msg as [m|]; [now apply Hsome in Hrun |].
    injection Hrun as <-. eexists. reflexivity.
Qed.

(** X15: handed a TLV for which [globals()] has the conversion
    [conv_<id>] and the class a callable [<id>_h], and which the
    conversion accepts, the Python [callHadler] invokes that handler
    once, with the message, the converted object and the name of the
    ID; [noTlv] is not invoked. *)
Theorem py_callHadler_handler m n t
    (conv : BaseMngTlv Payload -> option Payload) (data : Payload) :
  conv_globals !! ("conv_" +:+ mng2str_c n) = Some conv ->
  mng2str_c n +:+ "_h" ∈ class_callable ->
  conv t = Some data ->
  py_callHadler (Some m) n (Some t) =
    inr [py_h (mng2str_c n +:+ "_h") m data (mng2str_c n)].
Proof.
  intros Hconv Hcall Hdata. rewrite py_callHadler_tlv, Hconv, Hdata.
  now rewrite bool_decide_eq_true_2.
Qed.

(** X16: handed a TLV, the Python [callHadler] falls back to
    [noTlv(msg)] (to nothing when the class has no callable [noTlv])
    whenever the conversion is missing, the handler is missing, or the
    conversion yields [None]. *)
Theorem py_callHadler_fallback m n t :
  conv_globals !! ("conv_" +:+ mng2str_c n) = None \/
  mng2str_c n +:+ "_h" ∉ class_callable \/
  (forall conv, conv_globals !! ("conv_" +:+ mng2str_c n) = Some conv ->
                conv t = None) ->
  py_callHadler (Some m) n (Some t) =
    inr (if bool_decide ("noTlv" ∈ class_callable) then [py_noTlv m] else []).
Proof.
  intros Hmiss. rewrite py_callHadler_tlv. fold (py_fallback m).
  destruct (conv_globals !! _) as [conv|] eqn:Hconv; [| reflexivity].
  case_bool_decide as Hcall; [| reflexivity].
  destruct Hmiss as [Hmiss | [Hmiss | Hmiss]]; [discriminate | contradiction |].
  now rewrite (Hmiss conv eq_refl).
Qed.

(** X17: whatever the Python [callHadler] invokes, it invokes with the
    message it was given, and at most one method: [noTlv] only when the
    class has it, a handler only when its name is [<id>_h] for the ID
    dispatched, the class has it, and the conversion of that ID accepted
    the TLV dispatched. *)
Theorem py_callHadler_calls m n (tlv : option (BaseMngTlv Payload))
    (calls : list py_call) :
  py_callHadler (Some m) n tlv = inr calls ->
  (length calls <= 1)%nat /\
  forall c, c ∈ calls ->
    match c with
    | py_noTlv m' => m' = m /\ "noTlv" ∈ class_callable
    | py_h callback_name m' data idstr =>
        m' = m /\
        exists (k : mng_vals_e) (t : BaseMngTlv Payload)
               (conv : BaseMngTlv Payload -> option Payload),
          (tlv = Some t /\ k = n \/
           tlv = None /\ getData m = Some t /\ k = getTlvId m) /\
          idstr = mng2str_c k /\ callback_name = idstr +:+ "_h" /\
          callback_name ∈ class_callable /\
          conv_globals !! ("conv_" +:+ idstr) = Some conv /\
          conv t = Some data
    end.
Proof.
  assert (forall k t calls,
    py_callHadler (Some m) k (Some t) = inr calls ->
    (length calls <= 1)%nat /\
    forall c, c ∈ calls ->
      match c with
      | py_noTlv m' => m' = m /\ "noTlv" ∈ class_callable
      | py_h callback_name m' data idstr =>
          m' = m /\
          exists conv : BaseMngTlv Payload -> option Payload,
            idstr = mng2str_c k /\ callback_name = idstr +:+ "_h" /\
            callback_name ∈ class_callable /\
            conv_globals !! ("conv_" +:+ idstr) = Some conv /\
            conv t = Some data
      end) as Htlv.
  { intros k t cs. rewrite py_callHadler_tlv.
    assert ((length (py_fallback m) <= 1)%nat) as Hlen.
    { unfold py_fallback. case_bool_decide; cbn; lia. }
    assert (forall c, c ∈ py_fallback m ->
              match c with
              | py_noTlv m' => m' = m /\ "noTlv" ∈ class_callable
              | py_h _ _ _ _ => False
              end) as Hfb.
    { intros c [-> Hno]%py_fallback_calls. auto. }
    assert (@inr py_exception _ (py_fallback m) = inr cs ->
      (length cs <= 1)%nat /\
      forall c, c ∈ cs ->
        match c with
        | py_noTlv m' => m' = m /\ "noTlv" ∈ class_callable
        | py_h callback_name m' data idstr =>
            m' = m /\
            exists conv : BaseMngTlv Payload -> option Payload,
              idstr = mng2str_c k /\ callback_name = idstr +:+ "_h" /\
              callback_name ∈ class_callable /\
              conv_globals !! ("conv_" +:+ idstr) = Some conv /\
              conv t = Some data
        end) as Hfall.
    { intros [= <-]. split; [exact Hlen |].
      intros c Hin. specialize (Hfb c Hin). destruct c; [exact Hfb | contradiction]. }
    destruct (conv_globals !! _) as [conv|] eqn:Hconv; [| exact Hfall].
    case_bool_decide as Hcall; [| exact Hfall].
    destruct (conv t) as [data|] eqn:Hdata; [| exact Hfall].
    intros [= <-]. split; [cbn; lia |].
    intros c ->%list_elem_of_singleton. split; [reflexivity |].
    exists conv. auto. }
  intros Hrun. destruct tlv as [t|].
  - destruct (Htlv n t calls Hrun) as [Hlen Hcalls]. split; [exact Hlen |].
    intros c Hin. specialize (Hcalls c Hin).
    destruct c as [m' | name m' data idstr]; [exact Hcalls |].
    destruct Hcalls as (-> & conv & Hrest). split; [reflexivity |].
    exists n, t, conv. split; [left; auto | exact Hrest].
  - rewrite py_callHadler_none in Hrun.
    destruct (getData m) as [t|] eqn:Hdata.
    + destruct (Htlv _ t calls Hrun) as [Hlen Hcalls]. split; [exact Hlen |].
      intros c Hin. specialize (Hcalls c Hin).
      destruct c as [m' | name m' data idstr]; [exact Hcalls |].
      destruct Hcalls as (-> & conv & Hrest). split; [reflexivity |].
      exists (getTlvId m), t, conv. split; [right; auto | exact Hrest].
    + injection Hrun as <-. split.
      * unfold py_fallback. case_bool_decide; cbn; lia.
      * intros c [-> Hno]%py_fallback_calls. auto.
Qed.

End PythonDispatcher.

(** ** The two dispatchers side by side *)

Section TwoDispatchers.

Import PyCall.

Context {Message Payload : Type}.
Context `{IdsTable} `{MessageApi Message Payload} `{DispatcherClass}.
Context `{PyEnv Message Payload} `{PyDispatcher Payload}.

Implicit Types (m : Message) (n : mng_vals_e) (t : BaseMngTlv Payload).

(** X18: called without a TLV, the two dispatchers part.  The C++
    [callHadler(msg, tlv_id, nullptr)] invokes [noTlv]; the Python
    [callHadler(msg, tlv_id, None)] sets the ID given aside, takes the ID
    and the TLV of the message and dispatches those. *)
Theorem py_callHadler_without_tlv m n t
    (conv : BaseMngTlv Payload -> option Payload) (data : Payload) :
  getData m = Some t ->
  conv_globals !! ("conv_" +:+ mng2str_c (getTlvId m)) = Some conv ->
  mng2str_c (getTlvId m) +:+ "_h" ∈ class_callable ->
  conv t = Some data ->
  py_callHadler (Some m) n None =
    inr [py_h (mng2str_c (getTlvId m) +:+ "_h") m data
           (mng2str_c (getTlvId m))] /\
  callHadler3 m n (@None (BaseMngTlv Payload)) = Some [call_noTlv m].
Proof.
  intros Hdata Hconv Hcall Hconv_t. split; [| reflexivity].
  rewrite py_callHadler_none, Hdata, py_callHadler_tlv, Hconv, Hconv_t.
  now rewrite bool_decide_eq_true_2.
Qed.

(** X19: where the Python class defines the handlers the C++ class
    overrides, the two dispatchers invoke the same method for a message
    whose TLV is of the type of its ID, as long as the handler of that ID
    is overridden (or the ID has no dispatcher case, or the message
    carries no TLV). *)
Theorem py_callHadler_agrees m :
  same_handlers ->
  (forall t, getData m = Some t ->
     tlv_type t = getTlvId m /\
     (ptpmCaseUF (getTlvId m) = true -> overrides_h (getTlvId m) = true)) ->
  exists calls : list handler_call,
    callHadler m = Some calls /\
    py_callHadler (Some m) (-1) None = inr (omap py_of_call calls).
Proof.
  intros [Hnames Hconv Hcallable Hno] Hmsg.
  assert (py_fallback m = [py_noTlv m]) as Hfb.
  { unfold py_fallback. now rewrite bool_decide_eq_true_2. }
  rewrite py_callHadler_none. unfold callHadler, callHadler3.
  destruct (getData m) as [t|] eqn:Hdata.
  2:{ eexists. split; [reflexivity |]. rewrite Hfb. reflexivity. }
  destruct (Hmsg t eq_refl) as [Hty Hover].
  rewrite py_callHadler_tlv, Hconv.
  destruct (ptpmCaseUF (getTlvId m)) eqn:Hcase.
  2:{ eexists. split; [reflexivity |]. rewrite Hfb. reflexivity. }
  specialize (Hover eq_refl).
  rewrite (bool_decide_eq_true_2 _ (proj2 (Hcallable _) (conj Hcase Hover))).
  unfold check_inherit. rewrite Hover, andb_false_r.
  unfold dynamic_cast. rewrite Hty, Z.eqb_refl.
  eexists. split; [reflexivity |]. cbn. now rewrite Hnames.
Qed.

(** X20: a handler that is not overridden is where they differ.  With
    [__GNUC__] the C++ dispatcher invokes [noTlvCallBack(msg, #n)]; the
    Python dispatcher, whose class then has no [n_h], invokes
    [noTlv(msg)]. *)
Theorem py_callHadler_not_overridden m t :
  same_handlers -> gnuc = true ->
  getData m = Some t ->
  ptpmCaseUF (getTlvId m) = true -> overrides_h (getTlvId m) = false ->
  py_callHadler (Some m) (-1) None = inr [py_noTlv m] /\
  callHadler m = Some [call_noTlvCallBack m (id_str (getTlvId m))].
Proof.
  intros [Hnames Hconv Hcallable Hno] Hgnuc Hdata Hcase Hover. split.
  - rewrite py_callHadler_none, Hdata, py_callHadler_tlv, Hconv, Hcase.
    rewrite bool_decide_eq_false_2.
    + unfold py_fallback. now rewrite bool_decide_eq_true_2.
    + intros [_ Habs]%Hcallable. congruence.
  - unfold callHadler, callHadler3, check_inherit.
    now rewrite Hdata, Hcase, Hgnuc, Hover.
Qed.

End TwoDispatchers.

(** ** msgCall.i: the constructors *)

Section PythonConstructors.

Import PyCall Ownership.

Context {Message Payload : Type}.
Context `{MessageApi Message Payload} `{PyEnv Message Payload}.
Context `{PyDispatcher Payload}.

(** X21: [MessageDispatcher.__init__] raises exactly for the abstract
    class, and then an [Exception], before any dispatch; made without a
    message it invokes nothing, made with one it dispatches the ID and
    the TLV of that message. *)
Theorem py_dispatcher_init_cases (abstract : bool) (msg : option Message) :
  match py_dispatcher_init abstract msg with
  | inl e => abstract = true /\ exists text, e = Exception text
  | inr calls =>
      abstract = false /\
      match msg with
      | None => calls = []
      | Some m =>
          py_callHadler (Some m) (getTlvId m) (getData m) = inr calls
      end
  end.
Proof.
  unfold py_dispatcher_init. destruct abstract.
  { split; [reflexivity | eexists; reflexivity]. }
  destruct msg as [m|]; [| auto].
  assert (py_callHadler (Some m) (-1) None =
          py_callHadler (Some m) (getTlvId m) (getData m)) as ->.
  { unfold py_callHadler. now destruct (getData m). }
  destruct (py_callHadler (Some m) (getTlvId m) (getData m)) as [e | calls] eqn:Hrun;
    [| auto].
  exfalso. revert Hrun. unfold py_callHadler.
  destruct (getData m) as [t|]; [| discriminate].
  destruct (conv_globals !! _) as [conv|]; [| discriminate].
  case_bool_decide; [| discriminate]. now destruct (conv t).
Qed.

(** X22: [MessageBulder.__init__] makes a builder exactly for a derived
    class given a message; the abstract class raises [Exception] even
    without a message, a derived class without a message raises
    [AttributeError].  The builder made holds the message and no value,
    and its free store is exact. *)
Theorem py_builder_init_cases (abstract : bool) (msg : option Message) :
  match py_builder_init (Payload := Payload) abstract msg with
  | inl (Exception _) => abstract = true
  | inl (AttributeError _) => abstract = false /\ msg = None
  | inr s =>
      abstract = false /\ msg = Some (m_msg s) /\ m_tlv s = None /\
      trace s = [] /\ holds_exactly s
  end.
Proof.
  unfold py_builder_init. destruct abstract; [reflexivity |].
  destruct msg as [m|]; [| auto]. cbn. repeat split; try discriminate.
  intros [v Hv]. cbn in Hv. rewrite lookup_empty in Hv. discriminate.
Qed.

End PythonConstructors.

(** ** msg.h: the flag tests *)

Section FlagFacts.

Import Flags.

Lemma uint8_cases (P : Z -> bool) :
  forallb P (map Z.of_nat (seq 0 256)) = true ->
  forall x : Z, uint8_t x -> P x = true.
Proof.
  intros Hall x [Hlo Hhi]. rewrite forallb_forall in Hall. apply Hall.
  apply in_map_iff. exists (Z.to_nat x). split; [lia |].
  apply in_seq. lia.
Qed.

(** X23: the six flag tests read the six low bits of the octet, one
    each: every test yields 0 or 1, and the octet modulo 64 is recovered
    from the six results. *)
Theorem flags_decompose (flags : Z) :
  uint8_t flags ->
  Forall (fun test => test flags = 0 \/ test flags = 1) flag_tests /\
  flags mod 64 =
    is_LI_61 flags + 2 * is_LI_59 flags + 4 * is_UTCV flags +
    8 * is_PTP flags + 16 * is_TTRA flags + 32 * is_FTRA flags.
Proof.
  intros Hflags. split.
  - unfold flag_tests.
    repeat (apply List.Forall_cons;
            [match goal with |- ?f flags = 0 \/ _ =>
               unfold f; destruct (negb _); auto
             end |]).
    apply List.Forall_nil.
  - apply Z.eqb_eq.
    apply (uint8_cases (fun f =>
      f mod 64 =? is_LI_61 f + 2 * is_LI_59 f + 4 * is_UTCV f +
                  8 * is_PTP f + 16 * is_TTRA f + 32 * is_FTRA f));
      [vm_compute; reflexivity | exact Hflags].
Qed.

Lemma flag_test_cases (a b : nat) (f : Z -> Z) (flags : Z) :
  forallb (fun x =>
    (f (Z.lor x (Z.shiftl 1 (Z.of_nat b))) =?
       (if bool_decide (a = b) then 1 else f x)) &&
    (f (Z.land x (Z.lnot (Z.shiftl 1 (Z.of_nat b)))) =?
       (if bool_decide (a = b) then 0 else f x)))
    (map Z.of_nat (seq 0 256)) = true ->
  uint8_t flags ->
  f (Z.lor flags (Z.shiftl 1 (Z.of_nat b))) =
    (if bool_decide (a = b) then 1 else f flags) /\
  f (Z.land flags (Z.lnot (Z.shiftl 1 (Z.of_nat b)))) =
    (if bool_decide (a = b) then 0 else f flags).
Proof.
  intros Hall Hflags.
  pose proof (uint8_cases _ Hall flags Hflags) as Hboth.
  apply andb_true_iff in Hboth as [H1 H2].
  apply Z.eqb_eq in H1, H2. split; assumption.
Qed.

(** X24: setting bit [j] of the octet ([flags | (1 << j)]) makes test
    [j] yield 1, clearing it ([flags & ~(1 << j)]) makes it yield 0, and
    neither changes what another test yields. *)
Theorem flags_set_clear (flags : Z) (i j : nat) (test : Z -> Z) :
  uint8_t flags -> (j < 6)%nat -> flag_tests !! i = Some test ->
  test (Z.lor flags (Z.shiftl 1 (Z.of_nat j))) =
    (if bool_decide (i = j) then 1 else test flags) /\
  test (Z.land flags (Z.lnot (Z.shiftl 1 (Z.of_nat j)))) =
    (if bool_decide (i = j) then 0 else test flags).
Proof.
  intros Hflags Hj Htest.
  assert (forall k : nat, (k < 6)%nat ->
            k = 0%nat \/ k = 1%nat \/ k = 2%nat \/ k = 3%nat \/ k = 4%nat \/
            k = 5%nat) as Hsix by lia.
  assert ((i < 6)%nat) as Hi.
  { apply lookup_lt_Some in Htest. exact Htest. }
  destruct (Hsix i Hi) as [-> | [-> | [-> | [-> | [-> | ->]]]]];
    injection Htest as <-;
    destruct (Hsix j Hj) as [-> | [-> | [-> | [-> | [-> | ->]]]]];
    (apply flag_test_cases; [vm_compute; reflexivity | exact Hflags]).
Qed.

End FlagFacts.

(** ** msg.h: move *)

Section MoveFacts.

Import Cursor.

Lemma to_ssize_t_range (x : Z) : ssize_t (to_ssize_t x).
Proof.
  unfold ssize_t, to_ssize_t.
  pose proof (Z.mod_pos_bound (x + 2 ^ 63) (2 ^ 64) eq_refl). lia.
Qed.

Lemma to_size_t_range (x : Z) : size_t (to_size_t x).
Proof. apply Z.mod_pos_bound. reflexivity. Qed.

Lemma to_ssize_t_small (x : Z) : ssize_t x -> to_ssize_t x = x.
Proof.
  unfold ssize_t, to_ssize_t. intros Hx. rewrite Z.mod_small; lia.
Qed.

Lemma to_size_t_small (x : Z) : size_t x -> to_size_t x = x.
Proof. unfold size_t, to_size_t. intros Hx. apply Z.mod_small. lia. Qed.

Lemma to_ssize_t_congr (x y : Z) :
  x mod 2 ^ 64 = y mod 2 ^ 64 -> to_ssize_t x = to_ssize_t y.
Proof.
  intros Hxy. unfold to_ssize_t. f_equal.
  rewrite <- (Zplus_mod_idemp_l x), <- (Zplus_mod_idemp_l y), Hxy.
  reflexivity.
Qed.

Lemma to_ssize_t_mod (x : Z) : to_ssize_t x mod 2 ^ 64 = x mod 2 ^ 64.
Proof.
  unfold to_ssize_t.
  rewrite Zminus_mod_idemp_l. f_equal. lia.
Qed.

(** What [m_left] becomes, up to a multiple of 2^64. *)
Lemma moved_left_mod (left val : Z) :
  to_ssize_t (to_size_t (to_size_t left - val)) mod 2 ^ 64 =
    (left - val) mod 2 ^ 64.
Proof.
  rewrite to_ssize_t_mod. unfold to_size_t.
  rewrite Z.mod_mod by lia. apply Zminus_mod_idemp_l.
Qed.

Lemma ssize_t_mod_inj (x y : Z) :
  ssize_t x -> ssize_t y -> x mod 2 ^ 64 = y mod 2 ^ 64 -> x = y.
Proof.
  intros Hx Hy Hxy.
  rewrite <- (to_ssize_t_small x Hx), <- (to_ssize_t_small y Hy).
  now apply to_ssize_t_congr.
Qed.

(** X25: [move] in the arithmetic of the machine.  A move that stays
    within the array keeps [m_left] an [ssize_t] and [m_size] a [size_t]
    and keeps their sum modulo 2^64; while neither counter wraps, the sum
    itself is kept, [m_left] falling and [m_size] rising by [val]; and
    two moves in a row are one move of the sum. *)
Theorem move_accounts (room a b : Z) (p p1 : position) :
  size_t a -> size_t b -> ssize_t (m_left p) -> size_t (m_size p) ->
  move room a p = Some p1 ->
  m_cur p1 = m_cur p + a /\ ssize_t (m_left p1) /\ size_t (m_size p1) /\
  (m_left p1 + m_size p1) mod 2 ^ 64 = (m_left p + m_size p) mod 2 ^ 64 /\
  (- 2 ^ 63 <= m_left p - a -> m_size p + a < 2 ^ 64 ->
   m_left p1 = m_left p - a /\ m_size p1 = m_size p + a /\
   m_left p1 + m_size p1 = m_left p + m_size p) /\
  (a + b < 2 ^ 64 -> move room b p1 = move room (a + b) p).
Proof.
  intros Ha Hb Hleft Hsize Hrun. unfold move in Hrun.
  destruct (Z.leb_spec (m_cur p + a) room) as [Hroom | _]; [| discriminate].
  injection Hrun as <-. cbn [m_cur m_left m_size].
  split; [reflexivity |]. split; [apply to_ssize_t_range |].
  split; [apply to_size_t_range |]. split; [| split].
  - rewrite Zplus_mod, moved_left_mod. unfold to_size_t.
    rewrite Z.mod_mod by lia. rewrite <- Zplus_mod. f_equal. lia.
  - intros Hlo Hhi.
    assert (to_ssize_t (to_size_t (to_size_t (m_left p) - a)) = m_left p - a)
      as ->.
    { rewrite <- (to_ssize_t_small (m_left p - a)).
      - apply to_ssize_t_congr. unfold to_size_t.
        rewrite Z.mod_mod by lia. apply Zminus_mod_idemp_l.
      - unfold ssize_t, size_t in *. lia. }
    rewrite to_size_t_small by (unfold size_t in *; lia). lia.
  - intros Hsum. unfold move. cbn [m_cur m_left m_size].
    replace (m_cur p + a + b) with (m_cur p + (a + b)) by lia.
    destruct (Z.leb_spec (m_cur p + (a + b)) room); [| reflexivity].
    f_equal. f_equal.
    + apply ssize_t_mod_inj; try apply to_ssize_t_range.
      rewrite !moved_left_mod.
      rewrite <- Zminus_mod_idemp_l, moved_left_mod, Zminus_mod_idemp_l.
      f_equal. lia.
    + unfold to_size_t. rewrite Zplus_mod_idemp_l. f_equal. lia.
Qed.

(** Where the counters wrap: a move of one octet with [m_size] at its
    maximum leaves [m_size] zero. *)
Lemma move_wraps :
  move 8 1 (mkPos 0 8 (2 ^ 64 - 1)) = Some (mkPos 1 7 0).
Proof. reflexivity. Qed.

(** Within an array, and while the counters do not wrap, the cursor of
    the codec moves as the machine does. *)
Lemma move_position_of (room val : Z) (c : Msg.cursor) :
  0 <= val <= Msg.len (Msg.m_cur c) -> Msg.len (Msg.m_cur c) <= room ->
  - 2 ^ 63 <= Msg.m_left c - val -> Msg.m_left c < 2 ^ 63 ->
  0 <= Msg.m_size c -> Msg.m_size c + val < 2 ^ 64 ->
  move room val (position_of room c) =
    Some (position_of room (Msg.move val c)).
Proof.
  intros Hval Hroom Hlo Hhi Hs0 Hs1.
  unfold move, position_of, Msg.move. cbn.
  destruct (Z.leb_spec (room - Msg.len (Msg.m_cur c) + val) room); [| lia].
  f_equal. f_equal.
  - unfold Msg.len in *. rewrite length_drop. lia.
  - rewrite <- (to_ssize_t_small (Msg.m_left c - val)).
    + apply to_ssize_t_congr. unfold to_size_t.
      rewrite Z.mod_mod by lia. apply Zminus_mod_idemp_l.
    + unfold ssize_t. lia.
  - apply to_size_t_small. unfold size_t. lia.
Qed.

End MoveFacts.

(** ** msg.h: getInterval, the cast and the division *)

Section IntervalExact.

Import Interval.

Lemma digits2_size (p : positive) : digits2_pos p = Pos.size p.
Proof. induction p; cbn; congruence. Qed.

Lemma digits2_bounds (p : positive) :
  2 ^ (Z.pos (digits2_pos p) - 1) <= Z.pos p < 2 ^ Z.pos (digits2_pos p).
Proof.
  rewrite digits2_size.
  pose proof (Pos.size_gt p) as Hgt. pose proof (Pos.size_le p) as Hle.
  apply Pos2Z.pos_lt_pos in Hgt. apply Pos2Z.pos_le_pos in Hle.
  rewrite Pos2Z.inj_pow in Hgt, Hle. rewrite (Pos2Z.inj_xO p) in Hle.
  replace (Z.pos (Pos.size p)) with (Z.succ (Z.pos (Pos.size p) - 1)) in Hle by lia.
  rewrite Z.pow_succ_r in Hle by lia. lia.
Qed.

Lemma digits2_unique (p : positive) (d : Z) :
  2 ^ (d - 1) <= Z.pos p < 2 ^ d -> Z.pos (digits2_pos p) = d.
Proof.
  intros [Hlo Hhi]. pose proof (digits2_bounds p) as [Hlo' Hhi'].
  assert (0 < d).
  { destruct (Z.lt_trichotomy d 0) as [Hd | [-> | Hd]]; [| | exact Hd].
    - rewrite (Z.pow_neg_r 2 d) in Hhi by lia. lia.
    - cbn in Hhi. lia. }
  assert (d - 1 < Z.pos (digits2_pos p)).
  { apply (Z.pow_lt_mono_r_iff 2); lia. }
  assert (Z.pos (digits2_pos p) - 1 < d).
  { apply (Z.pow_lt_mono_r_iff 2); lia. }
  lia.
Qed.

(** Rounding a mantissa of 53 digits leaves it. *)
Lemma binary_round_aux_exact (s : bool) (m : positive) (e : Z) :
  Z.pos (digits2_pos m) = 53 -> -1074 <= e <= 971 ->
  binary_round_aux prec emax s (Z.pos m) e loc_Exact = S754_finite s m e.
Proof.
  intros Hd He. unfold binary_round_aux, shr_fexp, Zdigits2.
  rewrite Hd. unfold fexp, emin, prec, emax.
  replace (Z.max (53 + e - 53) (3 - 1024 - 53) - e) with 0 by lia.
  cbn [shr shr_record_of_loc loc_of_shr_record shr_m round_nearest_even].
  rewrite Hd.
  replace (Z.max (53 + e - 53) (3 - 1024 - 53) - e) with 0 by lia.
  cbn [shr shr_record_of_loc shr_m].
  destruct (Z.leb_spec e (1024 - 53)); [reflexivity | lia].
Qed.

Lemma double_65536 : double_of_Z 0x10000 = S754_finite false 4503599627370496 (-36).
Proof. vm_compute. reflexivity. Qed.

(** Division by 65536.0 lowers the exponent by 16. *)
Lemma div_65536 (s : bool) (m : positive) (e : Z) :
  Z.pos (digits2_pos m) = 53 -> -1057 <= e <= 987 ->
  double_div (S754_finite s m e) (S754_finite false 4503599627370496 (-36)) =
    S754_finite s m (e - 16).
Proof.
  intros Hd He. unfold double_div, SFdiv, SFdiv_core_binary, Zdigits2.
  rewrite Hd. change (Z.pos (digits2_pos 4503599627370496)) with 53.
  unfold fexp, emin, prec, emax.
  replace (Z.min (Z.max (53 + e - (53 + -36) - 53) (3 - 1024 - 53)) (e - -36))
    with (e - 17) by lia.
  replace (e - -36 - (e - 17)) with 53 by lia.
  cbv beta iota.
  assert (Z.div_eucl (Z.shiftl (Z.pos m) 53) 4503599627370496 = (Z.pos m~0, 0))
    as ->.
  { rewrite Z.shiftl_mul_pow2 by lia.
    pose proof (Z_div_mod (Z.pos m * 2 ^ 53) 4503599627370496 eq_refl) as Hdiv.
    destruct (Z.div_eucl _ _) as [q r]. destruct Hdiv as [Heq Hr].
    change (2 ^ 53) with 9007199254740992 in Heq.
    assert (q = 2 * Z.pos m /\ r = 0) as [-> ->] by lia. reflexivity. }
  change (new_location 4503599627370496 0) with loc_Exact.
  rewrite Bool.xorb_false_r.
  unfold binary_round_aux, shr_fexp, Zdigits2.
  change (digits2_pos m~0) with (Pos.succ (digits2_pos m)).
  rewrite Pos2Z.inj_succ, Hd. unfold fexp, emin, prec, emax.
  replace (Z.max (Z.succ 53 + (e - 17) - 53) (3 - 1024 - 53) - (e - 17))
    with 1 by lia.
  cbn [shr shr_record_of_loc iter_pos shr_1 loc_of_shr_record shr_m
       round_nearest_even orb].
  rewrite Hd.
  replace (Z.max (53 + (e - 17 + 1) - 53) (3 - 1024 - 53) - (e - 17 + 1))
    with 0 by lia.
  cbn [shr shr_record_of_loc shr_m].
  destruct (Z.leb_spec (e - 17 + 1) (1024 - 53)); [| lia].
  f_equal. lia.
Qed.

Lemma iter_xO_digits (p k : positive) :
  digits2_pos (Pos.iter xO p k) = (digits2_pos p + k)%positive.
Proof.
  induction k as [|k IH] using Pos.peano_ind.
  - cbn. now rewrite Pos.add_1_r.
  - rewrite Pos.iter_succ. cbn. rewrite IH. now rewrite Pos.add_succ_r.
Qed.

Lemma iter_xO_value (p k : positive) :
  Z.pos (Pos.iter xO p k) = Z.pos p * 2 ^ Z.pos k.
Proof.
  induction k as [|k IH] using Pos.peano_ind.
  - cbn. lia.
  - rewrite Pos.iter_succ, Pos2Z.inj_xO, IH, Pos2Z.inj_succ.
    rewrite Z.pow_succ_r by lia. lia.
Qed.

Lemma shr_1_m (mrs : shr_record) :
  0 <= shr_m mrs ->
  0 <= shr_m (shr_1 mrs) /\ shr_m (shr_1 mrs) = shr_m mrs / 2.
Proof.
  destruct mrs as [m r s]. cbn [shr_m]. intros Hm.
  destruct m as [|[q|q|]|q]; cbn [shr_1 shr_m]; try lia.
  all: split; [lia |].
  - reflexivity.
  - apply (Z.div_unique _ _ _ 1); lia.
  - apply (Z.div_unique _ _ _ 0); lia.
  - reflexivity.
Qed.

Lemma pow2_xO (n : positive) : 2 ^ Z.pos n~0 = 2 ^ Z.pos n * 2 ^ Z.pos n.
Proof. rewrite <- Z.pow_add_r by lia. f_equal. lia. Qed.

Lemma pow2_xI (n : positive) : 2 ^ Z.pos n~1 = 2 * (2 ^ Z.pos n * 2 ^ Z.pos n).
Proof.
  rewrite <- Z.pow_add_r, <- Z.pow_succ_r by lia. f_equal. lia.
Qed.

Lemma iter_shr_1_m (n : positive) (mrs : shr_record) :
  0 <= shr_m mrs ->
  0 <= shr_m (iter_pos shr_1 n mrs) /\
  shr_m (iter_pos shr_1 n mrs) = shr_m mrs / 2 ^ Z.pos n.
Proof.
  revert mrs. induction n as [n IH | n IH |]; intros mrs Hm; cbn [iter_pos].
  - destruct (shr_1_m mrs Hm) as [H0 H1].
    destruct (IH _ H0) as [H2 H3]. destruct (IH _ H2) as [H4 H5].
    split; [exact H4 |]. rewrite H5, H3, H1.
    rewrite !Z.div_div by lia. now rewrite pow2_xI.
  - destruct (IH _ Hm) as [H2 H3]. destruct (IH _ H2) as [H4 H5].
    split; [exact H4 |]. rewrite H5, H3.
    rewrite !Z.div_div by lia. now rewrite pow2_xO.
  - destruct (shr_1_m mrs Hm) as [H0 H1]. split; [exact H0 |].
    rewrite H1. reflexivity.
Qed.

Lemma round_nearest_even_cases (m : Z) (l : location) :
  round_nearest_even m l = m \/ round_nearest_even m l = m + 1.
Proof.
  destruct l as [|[]]; cbn; auto. destruct (Z.even m); auto.
Qed.

Lemma double_of_Z_pos (p : positive) :
  Z.pos p < 2 ^ 64 ->
  exists (m : positive) (e : Z),
    double_of_Z (Z.pos p) = S754_finite false m e /\
    Z.pos (digits2_pos m) = 53 /\ -52 <= e <= 12 /\
    (Z.pos p < 2 ^ 53 -> e <= 0 /\ Z.pos m = Z.pos p * 2 ^ (- e)).
Proof.
  intros Hp. pose proof (digits2_bounds p) as [Hlo Hhi].
  set (d := Z.pos (digits2_pos p)) in *.
  assert (1 <= d <= 64) as Hd.
  { split; [unfold d; lia |].
    assert (d - 1 < 64); [| lia]. apply (Z.pow_lt_mono_r_iff 2); lia. }
  unfold double_of_Z, binary_normalize, binary_round.
  fold d. unfold fexp, emin, prec, emax.
  replace (Z.max (d + 0 - 53) (3 - 1024 - 53)) with (d - 53) by lia.
  unfold shl_align.
  destruct (d - 53 - 0) as [|k|k] eqn:Hk.
  - (* 53 digits *)
    exists p, 0. split; [| split; [| split]].
    + apply binary_round_aux_exact; [fold d |]; lia.
    + fold d. lia.
    + lia.
    + intros _. cbn. lia.
  - (* more than 53 digits *)
    assert (d = 53 + Z.pos k) as Hdk by lia.
    assert (2 ^ 53 <= Z.pos p) as Hbig.
    { eapply Z.le_trans; [| exact Hlo]. apply Z.pow_le_mono_r; lia. }
    unfold binary_round_aux, shr_fexp, Zdigits2. fold d.
    unfold fexp, emin, prec, emax.
    replace (Z.max (d + 0 - 53) (3 - 1024 - 53) - 0) with (Z.pos k) by lia.
    cbn [shr shr_record_of_loc].
    destruct (iter_shr_1_m k (Build_shr_record (Z.pos p) false false))
      as [Hm0 Hm1]; [cbn; lia |].
    cbn [shr_m] in Hm1.
    set (mrs1 := iter_pos shr_1 k _) in *.
    assert (2 ^ 52 <= shr_m mrs1 < 2 ^ 53) as Hm.
    { rewrite Hm1. split.
      - apply Z.div_le_lower_bound; [lia |].
        rewrite Z.mul_comm, <- Z.pow_add_r by lia.
        replace (52 + Z.pos k) with (d - 1) by lia. exact Hlo.
      - apply Z.div_lt_upper_bound; [lia |].
        rewrite <- Z.pow_add_r by lia.
        replace (Z.pos k + 53) with d by lia. exact Hhi. }
    set (m2 := round_nearest_even (shr_m mrs1) (loc_of_shr_record mrs1)).
    assert (2 ^ 52 <= m2 <= 2 ^ 53) as Hm2.
    { unfold m2.
      destruct (round_nearest_even_cases (shr_m mrs1) (loc_of_shr_record mrs1))
        as [-> | ->]; lia. }
    destruct (Z.eq_dec m2 (2 ^ 53)) as [Heq | Hne].
    + rewrite Heq. change (2 ^ 53) with (Z.pos 9007199254740992).
      cbv beta iota.
      change (digits2_pos 9007199254740992) with 54%positive.
      replace (Z.max (Z.pos 54 + (0 + Z.pos k) - 53) (3 - 1024 - 53) -
               (0 + Z.pos k)) with 1 by lia.
      cbn [shr shr_record_of_loc iter_pos shr_1 shr_m orb].
      destruct (Z.leb_spec (0 + Z.pos k + 1) (1024 - 53)); [| lia].
      eexists _, _. split; [reflexivity |].
      split; [reflexivity |]. split; [lia |]. intros Hsmall. lia.
    + destruct m2 as [|q|q] eqn:Hq; [lia | | lia].
      assert (Z.pos (digits2_pos q) = 53) as Hdq.
      { apply digits2_unique. change (53 - 1) with 52. lia. }
      cbv beta iota. rewrite Hdq.
      replace (Z.max (53 + (0 + Z.pos k) - 53) (3 - 1024 - 53) -
               (0 + Z.pos k)) with 0 by lia.
      cbn [shr shr_record_of_loc shr_m].
      destruct (Z.leb_spec (0 + Z.pos k) (1024 - 53)); [| lia].
      exists q, (0 + Z.pos k). split; [reflexivity |].
      split; [exact Hdq |]. split; [lia |]. intros Hsmall. lia.
  - (* fewer than 53 digits *)
    assert (d = 53 - Z.pos k) as Hdk by lia.
    assert (Z.pos (digits2_pos (Pos.iter xO p k)) = 53) as Hdm.
    { rewrite iter_xO_digits, Pos2Z.inj_add. fold d. lia. }
    exists (Pos.iter xO p k), (d - 53). split; [| split; [| split]].
    + apply binary_round_aux_exact; [exact Hdm | lia].
    + exact Hdm.
    + lia.
    + intros _. split; [lia |].
      rewrite iter_xO_value. f_equal. f_equal. lia.
Qed.

(** The cast and the division together, for a positive count. *)
Lemma getInterval_parts (v : TimeInterval_t) :
  0 < scaledNanoseconds v < 2 ^ 64 ->
  exists (m : positive) (e : Z),
    double_of_Z (scaledNanoseconds v) = S754_finite false m e /\
    getInterval v = S754_finite false m (e - 16) /\
    Z.pos (digits2_pos m) = 53 /\ -52 <= e <= 12 /\
    (scaledNanoseconds v < 2 ^ 53 ->
     e <= 0 /\ Z.pos m = scaledNanoseconds v * 2 ^ (- e)).
Proof.
  intros [Hpos Hmax]. unfold getInterval.
  destruct (scaledNanoseconds v) as [|p|p]; [lia | | lia].
  destruct (double_of_Z_pos p Hmax) as (m & e & Hcast & Hd & He & Hexact).
  exists m, e. rewrite Hcast, double_65536.
  split; [reflexivity |]. split; [| auto].
  apply div_65536; [exact Hd | lia].
Qed.

(** X26: for every non-zero value of the field, [getInterval] is a
    positive normal number: the [double] nearest to the count, with the
    exponent lowered by 16.  The division by [0x10000] never rounds, and
    neither an infinity nor a NaN comes out. *)
Theorem getInterval_divides_exactly (v : TimeInterval_t) :
  0 < scaledNanoseconds v < 2 ^ 64 ->
  exists (m : positive) (e : Z),
    double_of_Z (scaledNanoseconds v) = S754_finite false m e /\
    getInterval v = S754_finite false m (e - 16) /\
    Z.pos (digits2_pos m) = 53 /\ -52 <= e <= 12.
Proof.
  intros Hv.
  destruct (getInterval_parts v Hv) as (m & e & Hcast & Hrun & Hd & He & _).
  exists m, e. auto.
Qed.

(** X27: below 2^53 nothing is lost.  The result of [getInterval], the
    mantissa [m] scaled by 2^[e], is the value of the field divided by
    65536, exactly. *)
Theorem getInterval_exact (v : TimeInterval_t) :
  0 < scaledNanoseconds v < 2 ^ 53 ->
  exists (m : positive) (e : Z),
    getInterval v = S754_finite false m e /\ e <= -16 /\
    Z.pos m * 65536 = scaledNanoseconds v * 2 ^ (- e).
Proof.
  intros [Hpos Hmax].
  destruct (getInterval_parts v) as (m & e & _ & Hrun & _ & He & Hexact);
    [lia |].
  destruct (Hexact Hmax) as [He0 Hm].
  exists m, (e - 16). split; [exact Hrun |]. split; [lia |].
  rewrite Hm. replace (- (e - 16)) with (- e + 16) by lia.
  rewrite Z.pow_add_r by lia. change (2 ^ 16) with 65536. lia.
Qed.

(** X28: no two values of the field below 2^53 are read as the same
    interval. *)
Theorem getInterval_injective (v w : TimeInterval_t) :
  0 <= scaledNanoseconds v < 2 ^ 53 -> 0 <= scaledNanoseconds w < 2 ^ 53 ->
  getInterval v = getInterval w ->
  scaledNanoseconds v = scaledNanoseconds w.
Proof.
  assert (forall u, 0 < scaledNanoseconds u < 2 ^ 53 ->
                    getInterval u <> S754_zero false) as Hnz.
  { intros u Hu Heq.
    destruct (getInterval_parts u) as (m & e & _ & Hrun & _); [lia |].
    congruence. }
  assert (forall u, scaledNanoseconds u = 0 ->
                    getInterval u = S754_zero false) as Hz.
  { intros u Hu. unfold getInterval. rewrite Hu. reflexivity. }
  intros Hv Hw Heq.
  destruct (Z.eq_dec (scaledNanoseconds v) 0) as [Hv0 | Hv0];
    destruct (Z.eq_dec (scaledNanoseconds w) 0) as [Hw0 | Hw0].
  - congruence.
  - exfalso. apply (Hnz w); [lia |]. rewrite <- Heq. now apply Hz.
  - exfalso. apply (Hnz v); [lia |]. rewrite Heq. now apply Hz.
  - destruct (getInterval_parts v) as (m & e & _ & Hrun & _ & He & Hm); [lia |].
    destruct (getInterval_parts w) as (m' & e' & _ & Hrun' & _ & He' & Hm');
      [lia |].
    destruct Hm as [He0 Hm]; [lia |]. destruct Hm' as [He0' Hm']; [lia |].
    rewrite Hrun, Hrun' in Heq. injection Heq as Hmm Hee.
    assert (e = e') as <- by lia. subst m'.
    assert (0 < 2 ^ (- e)) by (apply Z.pow_pos_nonneg; lia).
    nia.
Qed.

(** X29: below 2^53 [getInterval] keeps the order: of two values of the
    field, the larger is read as the larger interval. *)
Theorem getInterval_increasing (v w : TimeInterval_t) :
  0 <= scaledNanoseconds v -> scaledNanoseconds v < scaledNanoseconds w ->
  scaledNanoseconds w < 2 ^ 53 ->
  IntervalOrder.double_lt (getInterval v) (getInterval w) = true.
Proof.
  intros Hv Hvw Hw.
  destruct (getInterval_parts w) as (m' & e' & _ & Hrun' & Hd' & He' & Hm');
    [lia |].
  destruct Hm' as [He0' Hm']; [lia |].
  rewrite Hrun'. unfold IntervalOrder.double_lt, SFltb.
  destruct (Z.eq_dec (scaledNanoseconds v) 0) as [Hv0 | Hv0].
  { unfold getInterval. rewrite Hv0. reflexivity. }
  destruct (getInterval_parts v) as (m & e & _ & Hrun & Hd & He & Hm); [lia |].
  destruct Hm as [He0 Hm]; [lia |].
  rewrite Hrun. cbn [SFcompare].
  pose proof (digits2_bounds m) as [Hlo _]. rewrite Hd in Hlo.
  pose proof (digits2_bounds m') as [_ Hhi']. rewrite Hd' in Hhi'.
  change (2 ^ (53 - 1)) with (2 ^ 52) in Hlo.
  assert (0 < 2 ^ (- e)) as Hpe by (apply Z.pow_pos_nonneg; lia).
  destruct (Z.compare_spec (e - 16) (e' - 16)) as [Heq | Hlt | Hgt].
  - assert (e' = e) as -> by lia.
    assert ((m ?= m')%positive = Lt) as Hc.
    { apply Pos.compare_lt_iff.
      assert (Z.pos m < Z.pos m') by (rewrite Hm, Hm'; nia). lia. }
    unfold Pos.compare in Hc. cbv iota. rewrite Hc. reflexivity.
  - reflexivity.
  - exfalso.
    assert (2 ^ (- e') = 2 ^ (- e) * 2 ^ (e - e')) as Hsplit.
    { rewrite <- Z.pow_add_r by lia. f_equal. lia. }
    assert (2 <= 2 ^ (e - e')) as Htwo.
    { change 2 with (2 ^ 1) at 1. apply Z.pow_le_mono_r; lia. }
    rewrite Hm in Hlo. rewrite Hm', Hsplit in Hhi'. nia.
Qed.

End IntervalExact.

(** ** Runs of the sample configuration, continued *)

Section CoverageRuns.

Import Sample SampleCalls PyCall Ownership.

#[local] Existing Instance ids.
#[local] Existing Instance proc.
#[local] Existing Instance api.
#[local] Existing Instance builder.
#[local] Existing Instance python.
#[local] Existing Instance py_dispatcher.

Lemma callHadler_overridden_witness :
  @callHadler _ _ ids api user_dispatcher msg_priority1 =
    Some [call_h PRIORITY1 true msg_priority1 [128] "PRIORITY1"].
Proof.
  apply (@callHadler_overridden _ _ ids api user_dispatcher msg_priority1
           (mkTlv PRIORITY1 [128])); reflexivity.
Defined.

Lemma callHadler3_single_call_witness :
  exists c : @handler_call message (list Z),
    [call_noTlvCallBack msg_priority1 "PRIORITY1"] = [c] /\
    Dispatch.call_msg c = msg_priority1.
Proof.
  apply (@callHadler3_single_call _ _ ids gnu_dispatcher msg_priority1
           PRIORITY1 (Some (mkTlv PRIORITY1 [128]))).
  reflexivity.
Defined.

Lemma callHadler_defined_witness :
  exists c : @handler_call message (list Z),
    @callHadler _ _ ids api user_dispatcher msg_fault_log = Some [c].
Proof.
  apply (@callHadler_defined _ _ ids api user_dispatcher msg_fault_log).
  intros t [= <-]. reflexivity.
Defined.

Lemma callHadler3_gnuc_calls_witness :
  "FAULT_LOG" = @id_str ids FAULT_LOG /\
  @ptpmCaseUF ids FAULT_LOG = true /\
  @overrides_h user_dispatcher FAULT_LOG = false /\
  Some (mkTlv FAULT_LOG ([] : list Z)) <> None.
Proof.
  apply (@callHadler3_gnuc_calls _ _ ids user_dispatcher msg_fault_log
           FAULT_LOG (Some (mkTlv FAULT_LOG []))
           [call_noTlvCallBack msg_fault_log "FAULT_LOG"]
           (call_noTlvCallBack msg_fault_log "FAULT_LOG")).
  - reflexivity.
  - reflexivity.
  - apply list_elem_of_singleton. reflexivity.
Defined.

Lemma built_holds_exactly : holds_exactly built.
Proof.
  intros l. unfold built. cbn. destruct (decide (l = 1%positive)) as [-> | Hne].
  - rewrite lookup_singleton_eq. split; eauto.
  - rewrite lookup_singleton_ne by congruence.
    split; [intros [? [=]] | intros [= <-]; contradiction].
Qed.

Lemma built_owns : owns built.
Proof. intros old [= <-]. cbn. rewrite lookup_singleton_eq. eauto. Qed.

Lemma buildTlv_holds_exactly_witness :
  holds_exactly (buildTlv SET PRIORITY1 built).2.
Proof.
  apply (buildTlv_holds_exactly SET PRIORITY1 built). exact built_holds_exactly.
Defined.

Lemma buildTlv_true_sets_action_witness :
  exists tlv : option loc,
    setAction SET PRIORITY1 tlv (m_msg built) =
      (true, m_msg (buildTlv SET PRIORITY1 built).2) /\
    match tlv with
    | None =>
        (SET = GET \/ isEmpty PRIORITY1 = true) /\
        m_tlv (buildTlv SET PRIORITY1 built).2 = m_tlv built
    | Some d =>
        m_tlv (buildTlv SET PRIORITY1 built).2 = Some d /\
        exists f : list Z,
          n_b PRIORITY1 (m_msg built) (default_fields PRIORITY1) = (true, f) /\
          store (buildTlv SET PRIORITY1 built).2 !! d = Some (mkTlv PRIORITY1 f)
    end.
Proof.
  apply (buildTlv_true_sets_action SET PRIORITY1 built).
  - exact built_owns.
  - vm_compute. reflexivity.
Defined.

Lemma buildTlv_setAction_refuses_witness :
  let d := fresh (dom (store built)) in
  (buildTlv COMMAND PRIORITY1 built).1 = false /\
  m_msg (buildTlv COMMAND PRIORITY1 built).2 =
    (setAction COMMAND PRIORITY1 (Some d) (m_msg built)).2 /\
  m_tlv (buildTlv COMMAND PRIORITY1 built).2 = Some d /\
  is_Some (store (buildTlv COMMAND PRIORITY1 built).2 !! d) /\
  forall old : loc,
    m_tlv built = Some old ->
    store (buildTlv COMMAND PRIORITY1 built).2 !! old = None /\
    ev_delete old ∈ trace (buildTlv COMMAND PRIORITY1 built).2.
Proof.
  apply (buildTlv_setAction_refuses COMMAND PRIORITY1 built).
  - exact built_owns.
  - discriminate.
  - reflexivity.
  - reflexivity.
  - reflexivity.
  - vm_compute. reflexivity.
Defined.

Lemma py_buildTlv_get_or_empty_witness :
  py_buildTlv GET PRIORITY1 start =
    ((setAction GET PRIORITY1 None (m_msg start)).1,
     mkB (setAction GET PRIORITY1 None (m_msg start)).2 (m_tlv start)
         (store start) (trace start ++ [ev_setAction GET PRIORITY1 None])).
Proof.
  apply (py_buildTlv_get_or_empty GET PRIORITY1 start). left. reflexivity.
Defined.

Lemma py_buildTlv_not_found_witness :
  py_buildTlv SET FAULT_LOG start = (false, start).
Proof.
  apply (py_buildTlv_not_found SET FAULT_LOG start).
  - discriminate.
  - reflexivity.
  - left. vm_compute. reflexivity.
Defined.

Lemma py_buildTlv_true_binds_witness :
  let d := fresh (dom (store start)) in
  exists (v : BaseMngTlv (list Z)) (cb : build_callback message (list Z)),
    py_lookup PRIORITY1 = Some (Some v, cb) /\
    (cb (m_msg start) (tlv_fields v)).1 = true /\
    setAction SET PRIORITY1 (Some d) (m_msg start) =
      (true, m_msg (py_buildTlv SET PRIORITY1 start).2) /\
    m_tlv (py_buildTlv SET PRIORITY1 start).2 = Some d /\
    store (py_buildTlv SET PRIORITY1 start).2 !! d =
      Some (mkTlv (tlv_type v) (cb (m_msg start) (tlv_fields v)).2).
Proof.
  apply (py_buildTlv_true_binds SET PRIORITY1 start).
  - discriminate.
  - reflexivity.
  - vm_compute. reflexivity.
Defined.

Lemma py_dispatcher_conv :
  conv_globals !! ("conv_" +:+ mng2str_c PRIORITY1) =
    Some (dynamic_cast PRIORITY1).
Proof. vm_compute. reflexivity. Qed.

Lemma py_dispatcher_callable :
  mng2str_c PRIORITY1 +:+ "_h" ∈ class_callable.
Proof. vm_compute. reflexivity. Qed.

Lemma py_callHadler_handler_witness :
  py_callHadler (Some msg_priority1) PRIORITY1 (Some (mkTlv PRIORITY1 [128])) =
    inr [py_h "PRIORITY1_h" msg_priority1 [128] "PRIORITY1"].
Proof.
  exact (py_callHadler_handler msg_priority1 PRIORITY1 (mkTlv PRIORITY1 [128])
           (dynamic_cast PRIORITY1) [128]
           py_dispatcher_conv py_dispatcher_callable eq_refl).
Defined.

Lemma py_callHadler_fallback_witness :
  py_callHadler (Some msg_fault_log) FAULT_LOG (Some (mkTlv FAULT_LOG [])) =
    inr (if bool_decide ("noTlv" ∈ class_callable)
         then [py_noTlv msg_fault_log] else []).
Proof.
  apply (py_callHadler_fallback msg_fault_log FAULT_LOG (mkTlv FAULT_LOG [])).
  right. left. vm_compute. intros Hin. discriminate Hin.
Defined.

Lemma py_callHadler_calls_witness :
  (length [py_h "PRIORITY1_h" msg_priority1 [128] "PRIORITY1"] <= 1)%nat /\
  forall c, c ∈ [py_h "PRIORITY1_h" msg_priority1 [128] "PRIORITY1"] ->
    match c with
    | py_noTlv m' => m' = msg_priority1 /\ "noTlv" ∈ class_callable
    | py_h callback_name m' data idstr =>
        m' = msg_priority1 /\
        exists (k : mng_vals_e) (t : BaseMngTlv (list Z))
               (conv : BaseMngTlv (list Z) -> option (list Z)),
          (@None (BaseMngTlv (list Z)) = Some t /\ k = FAULT_LOG \/
           @None (BaseMngTlv (list Z)) = None /\
           getData msg_priority1 = Some t /\ k = getTlvId msg_priority1) /\
          idstr = mng2str_c k /\ callback_name = idstr +:+ "_h" /\
          callback_name ∈ class_callable /\
          conv_globals !! ("conv_" +:+ idstr) = Some conv /\
          conv t = Some data
    end.
Proof.
  apply (py_callHadler_calls msg_priority1 FAULT_LOG None
           [py_h "PRIORITY1_h" msg_priority1 [128] "PRIORITY1"]).
  reflexivity.
Defined.

Lemma py_callHadler_without_tlv_witness :
  py_callHadler (Some msg_priority1) FAULT_LOG None =
    inr [py_h "PRIORITY1_h" msg_priority1 [128] "PRIORITY1"] /\
  @callHadler3 _ _ ids user_dispatcher msg_priority1 FAULT_LOG
    (@None (BaseMngTlv (list Z))) = Some [call_noTlv msg_priority1].
Proof.
  exact (@py_callHadler_without_tlv _ _ ids api user_dispatcher python
           py_dispatcher msg_priority1 FAULT_LOG (mkTlv PRIORITY1 [128])
           (dynamic_cast PRIORITY1) [128]
           eq_refl py_dispatcher_conv py_dispatcher_callable eq_refl).
Defined.

Lemma sample_same_handlers :
  @same_handlers message (list Z) python py_dispatcher ids user_dispatcher.
Proof.
  split.
  - reflexivity.
  - intros n. cbn.
    destruct (Z.eqb_spec n PRIORITY1) as [-> | H0]; [vm_compute; reflexivity |].
    destruct (Z.eqb_spec n FAULT_LOG) as [-> | H1]; [vm_compute; reflexivity |].
    destruct (n =? NULL_MANAGEMENT); vm_compute; reflexivity.
  - intros n. cbn.
    destruct (Z.eqb_spec n PRIORITY1) as [-> | H0].
    { split; [intros _; split; reflexivity | intros _; vm_compute; reflexivity]. }
    split; [| intros [_ [=]]].
    intros Hin. exfalso. revert Hin.
    destruct (n =? FAULT_LOG); [vm_compute; discriminate |].
    destruct (n =? NULL_MANAGEMENT); vm_compute; discriminate.
  - vm_compute. reflexivity.
Qed.

Lemma py_callHadler_agrees_witness :
  exists calls : list handler_call,
    @callHadler _ _ ids api user_dispatcher msg_priority1 = Some calls /\
    py_callHadler (Some msg_priority1) (-1) None = inr (omap py_of_call calls).
Proof.
  apply (@py_callHadler_agrees _ _ ids api user_dispatcher python py_dispatcher
           msg_priority1).
  - exact sample_same_handlers.
  - intros t [= <-]. split; reflexivity.
Defined.

Lemma py_callHadler_not_overridden_witness :
  py_callHadler (Some msg_fault_log) (-1) None = inr [py_noTlv msg_fault_log] /\
  @callHadler _ _ ids api user_dispatcher msg_fault_log =
    Some [call_noTlvCallBack msg_fault_log "FAULT_LOG"].
Proof.
  apply (@py_callHadler_not_overridden _ _ ids api user_dispatcher python
           py_dispatcher msg_fault_log (mkTlv FAULT_LOG [])).
  - exact sample_same_handlers.
  - reflexivity.
  - reflexivity.
  - reflexivity.
  - reflexivity.
Defined.

End CoverageRuns.

Section InlineRuns.

Import Flags Interval.

Lemma flags_decompose_witness :
  Forall (fun test => test 0x2d = 0 \/ test 0x2d = 1) flag_tests /\
  0x2d mod 64 =
    is_LI_61 0x2d + 2 * is_LI_59 0x2d + 4 * is_UTCV 0x2d +
    8 * is_PTP 0x2d + 16 * is_TTRA 0x2d + 32 * is_FTRA 0x2d.
Proof. apply (flags_decompose 0x2d). unfold uint8_t. lia. Defined.

Lemma flags_set_clear_witness :
  is_PTP (Z.lor 0x24 (Z.shiftl 1 (Z.of_nat 4))) =
    (if bool_decide (3%nat = 4%nat) then 1 else is_PTP 0x24) /\
  is_PTP (Z.land 0x24 (Z.lnot (Z.shiftl 1 (Z.of_nat 4)))) =
    (if bool_decide (3%nat = 4%nat) then 0 else is_PTP 0x24).
Proof.
  apply (flags_set_clear 0x24 3 4 is_PTP).
  - unfold uint8_t. lia.
  - lia.
  - reflexivity.
Defined.

Lemma move_accounts_witness :
  let p := Cursor.mkPos 0 5 0 in
  let p1 := Cursor.mkPos 2 3 2 in
  Cursor.m_cur p1 = Cursor.m_cur p + 2 /\
  Cursor.ssize_t (Cursor.m_left p1) /\ Cursor.size_t (Cursor.m_size p1) /\
  (Cursor.m_left p1 + Cursor.m_size p1) mod 2 ^ 64 =
    (Cursor.m_left p + Cursor.m_size p) mod 2 ^ 64 /\
  (- 2 ^ 63 <= Cursor.m_left p - 2 -> Cursor.m_size p + 2 < 2 ^ 64 ->
   Cursor.m_left p1 = Cursor.m_left p - 2 /\
   Cursor.m_size p1 = Cursor.m_size p + 2 /\
   Cursor.m_left p1 + Cursor.m_size p1 = Cursor.m_left p + Cursor.m_size p) /\
  (2 + 3 < 2 ^ 64 -> Cursor.move 5 3 p1 = Cursor.move 5 (2 + 3) p).
Proof.
  intros p p1.
  apply (move_accounts 5 2 3 p p1);
    try (unfold Cursor.size_t, Cursor.ssize_t; cbn; lia).
  reflexivity.
Defined.

Lemma getInterval_divides_exactly_witness :
  let v := {| scaledNanoseconds := 2 ^ 64 - 1 |} in
  exists (m : positive) (e : Z),
    double_of_Z (scaledNanoseconds v) = S754_finite false m e /\
    getInterval v = S754_finite false m (e - 16) /\
    Z.pos (digits2_pos m) = 53 /\ -52 <= e <= 12.
Proof.
  intros v. apply (getInterval_divides_exactly v). cbn. lia.
Defined.

Lemma getInterval_exact_witness :
  let v := {| scaledNanoseconds := 98304 |} in
  exists (m : positive) (e : Z),
    getInterval v = S754_finite false m e /\ e <= -16 /\
    Z.pos m * 65536 = scaledNanoseconds v * 2 ^ (- e).
Proof.
  intros v. apply (getInterval_exact v). cbn. lia.
Defined.

Lemma getInterval_injective_witness :
  scaledNanoseconds {| scaledNanoseconds := 98304 |} =
  scaledNanoseconds {| scaledNanoseconds := 65536 + 32768 |}.
Proof.
  apply (getInterval_injective {| scaledNanoseconds := 98304 |}
           {| scaledNanoseconds := 65536 + 32768 |}).
  - cbn. lia.
  - cbn. lia.
  - reflexivity.
Defined.

Lemma getInterval_increasing_witness :
  IntervalOrder.double_lt (getInterval {| scaledNanoseconds := 65536 |})
    (getInterval {| scaledNanoseconds := 98304 |}) = true.
Proof.
  apply (getInterval_increasing {| scaledNanoseconds := 65536 |}
           {| scaledNanoseconds := 98304 |}); cbn; lia.
Defined.

End InlineRuns.
